(** * Five-in-a-row over a network link: the rules engine and the two event
      handlers of [main.go], embedded and verified.

    The Go program keeps one [GameState] that only the main loop mutates:
    [handleNetworkMessage] and [handleUserInput] run one at a time from the
    [select] of [main].  The embedding below follows that: a handler is a
    function from a state (and its event) to the next state.

    - Go [int] is 64-bit two's complement; values are [Z], and the few
      arithmetic expressions of the source wrap explicitly ([wrap]).
    - [[][]int] is [list (list Z)], read with stdpp's list lookup.  An index
      outside a slice is a run-time panic in Go; reads and writes return
      [None] there, and every function that indexes is in [option].
    - [for] loops with an early [return] are [for_range] over a three-way
      [flow] (fall through, return, panic).
    - A call that does not return (an index panic, or the fatal error of
      releasing a mutex that is not held) is [None]: either ends the
      process.
    - [gs.mu] is followed through [handleNetworkMessage], the one function
      whose [Lock] and [Unlock] calls do not pair up on every path; in
      [handleUserInput], [DisplayBoard] and the loop of [main] every [Lock]
      is followed by its [Unlock] before the next one, and [chatMu] and
      [redrawMu] are taken and released inside one call each.
    - What the handlers hand to [SendMessage] is recorded, call by call, in
      the [sent] log of the state.  The connection, the channels (with the
      shutdown channel) and the console output of the handlers are not part
      of the model; no goroutine other than the main loop writes a game
      field or touches [gs.mu]. *)

From Stdlib Require Import Ascii String.
From stdpp Require Import base numbers option list strings pretty.

Local Open Scope Z_scope.

(** ** Go integers *)

Module GoInt.

Definition min_int : Z := -9223372036854775808.   (* -2^63 *)
Definition max_int : Z := 9223372036854775807.    (* 2^63 - 1 *)
Definition modulus : Z := 18446744073709551616.   (* 2^64 *)

(** Two's-complement wrap-around of a 64-bit [int]: a result that fits is
    kept, one that does not is reduced modulo [2^64] into the range. *)
Definition wrap (z : Z) : Z :=
  if (min_int <=? z) && (z <=? max_int) then z
  else (z - min_int) mod modulus + min_int.

Definition add (a b : Z) : Z := wrap (a + b).
Definition sub (a b : Z) : Z := wrap (a - b).

Definition in_range (z : Z) : Prop := min_int ≤ z ≤ max_int.

End GoInt.

(** ** Control flow of a loop body *)

Inductive flow (A : Type) : Type :=
  | Next                (* the body fell through: next iteration *)
  | Ret (a : A)         (* [return a] *)
  | Panic.              (* index out of range *)
Arguments Next {A}.
Arguments Ret {A} a.
Arguments Panic {A}.

(** [for_from i n body]: [n] iterations of [body] at [i], [i+1], ... unless
    one of them returns or panics. *)
Fixpoint for_from {A} (i : Z) (n : nat) (body : Z → flow A) : flow A :=
  match n with
  | O => Next
  | S n' =>
      match body i with
      | Next => for_from (i + 1) n' body
      | r => r
      end
  end.

(** [for i := 0; i < size; i++ { body }] where the body assigns neither
    [i] nor [size]. *)
Definition for_range {A} (size : Z) (body : Z → flow A) : flow A :=
  for_from 0 (Z.to_nat size) body.

(** [if c { t } else { e }] where evaluating [c] may panic. *)
Definition cond {A} (c : option bool) (t e : flow A) : flow A :=
  match c with
  | None => Panic
  | Some true => t
  | Some false => e
  end.

(** Go's [a && b]: [b] is evaluated only when [a] is true. *)
Definition and_then (a b : option bool) : option bool :=
  match a with
  | Some true => b
  | other => other
  end.
Infix "&&&" := and_then (at level 40, left associativity).

(** The value a function returns once its outermost loop is over. *)
Definition returns {A} (r : flow A) (after : A) : option A :=
  match r with
  | Next => Some after
  | Ret a => Some a
  | Panic => None
  end.

(** ** Constants of [main.go] *)

Definition BoardSize : Z := 15.
Definition Empty : Z := 0.
Definition Player1 : Z := 1.
Definition Player2 : Z := 2.

Definition MsgTypeMove : string := "move".
Definition MsgTypeChat : string := "chat".
Definition MsgTypeState : string := "state".
Definition MsgTypeAssign : string := "assign".
Definition MsgTypeError : string := "error".
Definition MsgTypeNotify : string := "notify".

(** ** The board *)

Abbreviation Board := (list (list Z)).

(** [len(board)] and [len(board[i])]. *)
Definition len {A} (l : list A) : Z := Z.of_nat (length l).

(** [board[i]]: a panic when [i] is outside the slice. *)
Definition row (board : Board) (i : Z) : option (list Z) :=
  if i <? 0 then None else board !! Z.to_nat i.

(** [board[i][j]]. *)
Definition cell (board : Board) (i j : Z) : option Z :=
  r ← row board i;
  if j <? 0 then None else r !! Z.to_nat j.

(** [board[i][j] == player]. *)
Definition cell_is (board : Board) (i j player : Z) : option bool :=
  v ← cell board i j; Some (v =? player).

(** [board[i][j] = v]: the rows are separate slices, so only row [i]
    changes. *)
Definition store (board : Board) (i j v : Z) : option Board :=
  r ← row board i;
  _ ← cell board i j;
  Some (<[Z.to_nat i := <[Z.to_nat j := v]> r]> board).

(** The most the runtime allocates in one piece on a 64-bit target,
    [1 << 48] bytes. *)
Definition maxAlloc : Z := 281474976710656.

(** Does [make([]T, n)] pass the length check of the runtime, for elements
    of [size] bytes?  A negative [n], or [n * size] above [maxAlloc], is the
    panic "makeslice: len out of range".  An allocation that passes the
    check and that the machine cannot serve is a fatal error of the
    runtime; what the machine can serve is not in the source, and the model
    takes such an allocation to succeed. *)
Definition make_fits (size n : Z) : bool :=
  (0 <=? n) && (n * size <=? maxAlloc).

(** [NewBoard]: a slice of [size] slice headers (24 bytes each), then one
    slice of [size] ints (8 bytes each) for every row; the cells start at
    the zero value. *)
Definition NewBoard (size : Z) : option Board :=
  if make_fits 24 size then
    if (size =? 0) || make_fits 8 size
    then Some (replicate (Z.to_nat size) (replicate (Z.to_nat size) 0))
    else None
  else None.

(** ** The rules engine *)

(** The body of the inner loop of [checkWinLogic], at cell [(i, j)]. *)
Definition checkWin_at (board : Board) (player size i j : Z) : flow bool :=
  cond (cell_is board i j player)
    (cond (Some (GoInt.add j 4 <? size)
             &&& cell_is board i (GoInt.add j 1) player
             &&& cell_is board i (GoInt.add j 2) player
             &&& cell_is board i (GoInt.add j 3) player
             &&& cell_is board i (GoInt.add j 4) player)
       (Ret true)
    (cond (Some (GoInt.add i 4 <? size)
             &&& cell_is board (GoInt.add i 1) j player
             &&& cell_is board (GoInt.add i 2) j player
             &&& cell_is board (GoInt.add i 3) j player
             &&& cell_is board (GoInt.add i 4) j player)
       (Ret true)
    (cond (Some (GoInt.add i 4 <? size) &&& Some (GoInt.add j 4 <? size)
             &&& cell_is board (GoInt.add i 1) (GoInt.add j 1) player
             &&& cell_is board (GoInt.add i 2) (GoInt.add j 2) player
             &&& cell_is board (GoInt.add i 3) (GoInt.add j 3) player
             &&& cell_is board (GoInt.add i 4) (GoInt.add j 4) player)
       (Ret true)
    (cond (Some (GoInt.add i 4 <? size) &&& Some (GoInt.sub j 4 >=? 0)
             &&& cell_is board (GoInt.add i 1) (GoInt.sub j 1) player
             &&& cell_is board (GoInt.add i 2) (GoInt.sub j 2) player
             &&& cell_is board (GoInt.add i 3) (GoInt.sub j 3) player
             &&& cell_is board (GoInt.add i 4) (GoInt.sub j 4) player)
       (Ret true)
       Next))))
    Next.

Definition checkWinLogic (board : Board) (player : Z) : option bool :=
  let size := len board in
  returns
    (for_range size (λ i,
       for_range size (λ j,
         checkWin_at board player size i j)))
    false.

(** The body of the inner loop of [checkDrawLogic]. *)
Definition checkDraw_at (board : Board) (i j : Z) : flow bool :=
  cond (cell_is board i j Empty) (Ret false) Next.

Definition checkDrawLogic (board : Board) : option bool :=
  returns
    (for_range (len board) (λ i,
       match row board i with
       | None => Panic
       | Some r => for_range (len r) (λ j, checkDraw_at board i j)
       end))
    true.

(** ** Messages and the game state *)

Record Message : Type := mkMessage {
  Type_ : string;
  Player : Z;
  X : Z;
  Y : Z;
  Content : string;
  Turn : Z;
  Winner : Z
}.

(** How a message reached [SendMessage]: called in place, or in a goroutine
    of its own ([go gs.SendMessage(..)], its argument evaluated at the [go]
    statement). *)
Inductive SendMode : Type := InPlace | Spawned.

Record GameState : Type := mkGameState {
  board : Board;
  currentPlayer : Z;
  winner : Z;
  gameOver : bool;
  playerID : Z;
  chatHistory : list string;
  needsRedraw : bool;
  sent : list (SendMode * Message)   (* calls of SendMessage, oldest first *)
}.

Definition set_board (gs : GameState) (b : Board) : GameState :=
  mkGameState b (currentPlayer gs) (winner gs) (gameOver gs) (playerID gs)
    (chatHistory gs) (needsRedraw gs) (sent gs).
Definition set_currentPlayer (gs : GameState) (p : Z) : GameState :=
  mkGameState (board gs) p (winner gs) (gameOver gs) (playerID gs)
    (chatHistory gs) (needsRedraw gs) (sent gs).
Definition set_winner (gs : GameState) (w : Z) : GameState :=
  mkGameState (board gs) (currentPlayer gs) w (gameOver gs) (playerID gs)
    (chatHistory gs) (needsRedraw gs) (sent gs).
Definition set_gameOver (gs : GameState) (o : bool) : GameState :=
  mkGameState (board gs) (currentPlayer gs) (winner gs) o (playerID gs)
    (chatHistory gs) (needsRedraw gs) (sent gs).
Definition set_playerID (gs : GameState) (p : Z) : GameState :=
  mkGameState (board gs) (currentPlayer gs) (winner gs) (gameOver gs) p
    (chatHistory gs) (needsRedraw gs) (sent gs).
Definition set_chatHistory (gs : GameState) (h : list string) : GameState :=
  mkGameState (board gs) (currentPlayer gs) (winner gs) (gameOver gs)
    (playerID gs) h (needsRedraw gs) (sent gs).
Definition set_needsRedraw (gs : GameState) (r : bool) : GameState :=
  mkGameState (board gs) (currentPlayer gs) (winner gs) (gameOver gs)
    (playerID gs) (chatHistory gs) r (sent gs).
Definition set_sent (gs : GameState) (l : list (SendMode * Message))
    : GameState :=
  mkGameState (board gs) (currentPlayer gs) (winner gs) (gameOver gs)
    (playerID gs) (chatHistory gs) (needsRedraw gs) l.

Definition SetNeedsRedraw (gs : GameState) : GameState :=
  set_needsRedraw gs true.

Definition CheckAndResetRedraw (gs : GameState) : bool * GameState :=
  (needsRedraw gs, set_needsRedraw gs false).

Definition maxChatHistory : Z := 20.

(** [fmt.Sprintf("[%s]: %s", sender, message)]. *)
Definition chatLine (sender message : string) : string :=
  "[" +:+ sender +:+ "]: " +:+ message.

Definition AddChatMessage (gs : GameState) (sender message : string)
    : GameState :=
  let h := chatHistory gs ++ [chatLine sender message] in
  set_chatHistory gs
    (if len h >? maxChatHistory
     then drop (Z.to_nat (len h - maxChatHistory)) h
     else h).

Definition SendMessage (gs : GameState) (msg : Message) : GameState :=
  set_sent gs (sent gs ++ [(InPlace, msg)]).

Definition go_SendMessage (gs : GameState) (msg : Message) : GameState :=
  set_sent gs (sent gs ++ [(Spawned, msg)]).

Definition placePieceInternal (gs : GameState) (x y player : Z)
    : option (bool * GameState) :=
  if (x <? 0) || (x >=? BoardSize) || (y <? 0) || (y >=? BoardSize)
  then Some (false, gs)
  else
    v ← cell (board gs) x y;
    if negb (v =? Empty) then Some (false, gs)
    else
      b ← store (board gs) x y player;
      Some (true, set_board gs b).

(** ** Inbound messages *)

(** The reply of [handleNetworkMessage] to a move it could not place; a
    composite literal leaves the fields it does not name at zero. *)
Definition invalidMoveReply : Message :=
  {| Type_ := MsgTypeError; Player := 0; X := 0; Y := 0;
     Content := "Received invalid move"; Turn := 0; Winner := 0 |}.

(** [gs.mu], as the goroutine of the event loop sees it: [true] while
    held.  No other goroutine touches [gs.mu] (the readers and the senders
    never lock it), so [Lock] on a held mutex blocks for ever, and [Unlock]
    on a free one is the fatal error "sync: unlock of unlocked mutex", which
    ends the process.  Neither returns. *)
Definition mu_Lock (held : bool) : option bool :=
  if held then None else Some true.

Definition mu_Unlock (held : bool) : option bool :=
  if held then Some false else None.

(** The handler between its first [gs.mu.Lock()] and its last
    [gs.mu.Unlock()].  The result is the state, with
    [opponentMoved || chatReceived || stateChanged], and the mutex. *)
Definition handleNetworkMessage_locked (gs : GameState) (msg : Message)
    (mu : bool) : option (GameState * bool * bool) :=
  let senderName := "Player " +:+ pretty (Player msg) in
  if gameOver gs then
    mu ← mu_Unlock mu;
    if String.eqb (Type_ msg) MsgTypeChat
    then Some (AddChatMessage gs senderName (Content msg), true, mu)
    else Some (gs, false, mu)
  else if String.eqb (Type_ msg) MsgTypeMove then
    if negb (Player msg =? playerID gs) && (currentPlayer gs =? Player msg)
    then
      '(valid, gs) ← placePieceInternal gs (X msg) (Y msg) (Player msg);
      if valid : bool then
        win ← checkWinLogic (board gs) (Player msg);
        if win : bool then
          Some (set_gameOver (set_winner gs (Player msg)) true, true, mu)
        else
          draw ← checkDrawLogic (board gs);
          if draw : bool then
            Some (set_gameOver (set_winner gs 3) true, true, mu)
          else
            Some (set_currentPlayer gs (playerID gs), true, mu)
      else
        mu ← mu_Unlock mu;
        let gs := SendMessage gs invalidMoveReply in
        mu ← mu_Lock mu;
        Some (gs, false, mu)
    else if Player msg =? playerID gs then Some (gs, false, mu)
    else Some (gs, false, mu)
  else if String.eqb (Type_ msg) MsgTypeChat then
    if negb (Player msg =? playerID gs)
    then
      mu ← mu_Unlock mu;
      let gs := AddChatMessage gs senderName (Content msg) in
      mu ← mu_Lock mu;
      Some (gs, true, mu)
    else Some (gs, false, mu)
  else if String.eqb (Type_ msg) MsgTypeState then
    let gs := set_currentPlayer gs (Turn msg) in
    let gs := set_winner gs (Winner msg) in
    let gs := set_gameOver gs (negb (Winner msg =? 0)) in
    Some (gs, true, mu)
  else if String.eqb (Type_ msg) MsgTypeAssign then
    if playerID gs =? 0 then
      let gs := set_playerID gs (Player msg) in
      let gs :=
        if playerID gs =? Player1 then set_currentPlayer gs Player1
        else set_currentPlayer gs Player1 in
      Some (gs, true, mu)
    else Some (gs, false, mu)
  else if String.eqb (Type_ msg) MsgTypeError then Some (gs, true, mu)
  else if String.eqb (Type_ msg) MsgTypeNotify then Some (gs, true, mu)
  else Some (gs, false, mu).

(** [handleNetworkMessage]: the loop calls it with [gs.mu] free.  On a
    finished game the mutex is released twice, once in the branch and once
    after it, and the call does not return. *)
Definition handleNetworkMessage (gs : GameState) (msg : Message)
    : option GameState :=
  mu ← mu_Lock false;
  '(gs, redraw, mu) ← handleNetworkMessage_locked gs msg mu;
  _ ← mu_Unlock mu;
  Some (if redraw : bool then SetNeedsRedraw gs else gs).

(** ** Go's [strings] functions on byte strings *)

(** [strings.HasPrefix(s, prefix)]. *)
Fixpoint HasPrefix (s prefix : string) {struct prefix} : bool :=
  match prefix, s with
  | EmptyString, _ => true
  | String a prefix', String b s' => Ascii.eqb a b && HasPrefix s' prefix'
  | String _ _, EmptyString => false
  end.

Fixpoint drop_bytes (n : nat) (s : string) : string :=
  match n, s with
  | S n', String _ s' => drop_bytes n' s'
  | _, _ => s
  end.

(** [strings.TrimPrefix(s, prefix)]. *)
Definition TrimPrefix (s prefix : string) : string :=
  if HasPrefix s prefix then drop_bytes (String.length prefix) s else s.

(** [strings.Split(s, sep)] for a separator of one byte. *)
Fixpoint Split (s : string) (sep : ascii) : list string :=
  match s with
  | EmptyString => [EmptyString]
  | String c s' =>
      if Ascii.eqb c sep then EmptyString :: Split s' sep
      else
        match Split s' sep with
        | p :: ps => String c p :: ps
        | [] => [String c EmptyString]
        end
  end.

(** ** Local input *)

Section LocalInput.

(** [strings.TrimSpace] and [strconv.Atoi] belong to Go's library, not to
    this repository; the handler is verified for whatever they compute.
    [Atoi] is [None] where Go returns an error. *)
Variable TrimSpace : string → string.
Variable Atoi : string → option Z.

Definition chatMessage (myPlayerID : Z) (chatMsg : string) : Message :=
  {| Type_ := MsgTypeChat; Player := myPlayerID; X := 0; Y := 0;
     Content := chatMsg; Turn := 0; Winner := 0 |}.

Definition moveMessage (myPlayerID x y : Z) : Message :=
  {| Type_ := MsgTypeMove; Player := myPlayerID; X := x; Y := y;
     Content := ""; Turn := 0; Winner := 0 |}.

Definition stateMessage (w : Z) : Message :=
  {| Type_ := MsgTypeState; Player := 0; X := 0; Y := 0; Content := "";
     Turn := 0; Winner := w |}.

(** The critical section of a local move, with [validMove], [win] and
    [draw] as it leaves them. *)
Definition localMove_locked (gs : GameState) (myPlayerID x y : Z)
    : option (GameState * bool * bool * bool) :=
  if (currentPlayer gs =? myPlayerID) && negb (gameOver gs) then
    '(validMove, gs) ← placePieceInternal gs x y myPlayerID;
    if validMove : bool then
      win ← checkWinLogic (board gs) myPlayerID;
      draw ← checkDrawLogic (board gs);
      if win : bool then
        Some (set_gameOver (set_winner gs myPlayerID) true, true, win, draw)
      else if draw : bool then
        Some (set_gameOver (set_winner gs 3) true, true, win, draw)
      else
        Some (set_currentPlayer gs (GoInt.sub 3 myPlayerID), true, win, draw)
    else Some (gs, false, false, false)
  else Some (gs, false, false, false).

(** The branches of [handleUserInput] between the turn check and the final
    send: the state, [messageToSend] and [localChatMsg]. *)
Definition handleUserInput_command (gs : GameState) (myPlayerID : Z)
    (input : string) : option (GameState * option Message * string) :=
  if HasPrefix input "/c " then
    let chatMsg := TrimPrefix input "/c " in
    if negb (String.eqb chatMsg "")
    then Some (gs, Some (chatMessage myPlayerID chatMsg), chatMsg)
    else Some (gs, None, "")
  else
    match Split input "," with
    | [part0; part1] =>
        match Atoi (TrimSpace part0), Atoi (TrimSpace part1) with
        | Some x, Some y =>
            '(gs, validMove, win, draw) ← localMove_locked gs myPlayerID x y;
            if validMove : bool then
              let gs := SetNeedsRedraw gs in
              let gs :=
                if win || draw
                then go_SendMessage gs (stateMessage (winner gs))
                else gs in
              Some (gs, Some (moveMessage myPlayerID x y), "")
            else Some (SetNeedsRedraw gs, None, "")
        | _, _ => Some (SetNeedsRedraw gs, None, "")
        end
    | _ => Some (SetNeedsRedraw gs, None, "")
    end.

Definition handleUserInput (gs : GameState) (input : string)
    : option GameState :=
  let myPlayerID := playerID gs in
  let myTurn :=
    negb (myPlayerID =? 0) && (currentPlayer gs =? myPlayerID)
      && negb (gameOver gs) in
  let isGameOver := gameOver gs in
  if myPlayerID =? 0 then Some (SetNeedsRedraw gs)
  else if isGameOver then Some (SetNeedsRedraw gs)
  else if negb myTurn then Some (SetNeedsRedraw gs)
  else
    '(gs, messageToSend, localChatMsg) ←
      handleUserInput_command gs myPlayerID input;
    let gs :=
      match messageToSend with
      | Some m => go_SendMessage gs m
      | None => gs
      end in
    Some (if negb (String.eqb localChatMsg "")
          then SetNeedsRedraw
                 (AddChatMessage gs
                    ("You (Player " +:+ pretty myPlayerID +:+ ")")
                    localChatMsg)
          else gs).

(** ** [main]: the state literal, the listening side's self-assignment, and
       the events of the loop *)

Definition newGameState : option GameState :=
  b ← NewBoard BoardSize;
  Some {| board := b; currentPlayer := 0; winner := 0; gameOver := false;
          playerID := 0; chatHistory := []; needsRedraw := true;
          sent := [] |}.

Definition assignMsg : Message :=
  {| Type_ := MsgTypeAssign; Player := Player2; X := 0; Y := 0;
     Content := ""; Turn := 0; Winner := 0 |}.

Definition main_start (isServer : bool) : option GameState :=
  gs ← newGameState;
  if isServer then
    let gs := set_playerID gs Player1 in
    let gs := set_currentPlayer gs Player1 in
    let gs := go_SendMessage gs assignMsg in
    Some (SetNeedsRedraw gs)
  else Some gs.

Inductive Event : Type :=
  | Input (input : string)
  | Network (msg : Message)
  | Tick.

(** One turn of the [select] in [main]. *)
Definition main_step (gs : GameState) (ev : Event) : option GameState :=
  match ev with
  | Input input =>
      if negb (String.eqb input "") then handleUserInput gs input
      else Some (SetNeedsRedraw gs)
  | Network msg => handleNetworkMessage gs msg
  | Tick => Some gs
  end.

Fixpoint main_run (gs : GameState) (evs : list Event) : option GameState :=
  match evs with
  | [] => Some gs
  | ev :: evs' => gs' ← main_step gs ev; main_run gs' evs'
  end.

End LocalInput.

(** Reference instances of the two library functions, for running the
    handlers on examples.  Strings are byte strings, as in Go; a character
    outside ASCII is its UTF-8 bytes. *)
Module GoStd.

(** The ASCII white space of [strings.TrimSpace]: tab, line feed, vertical
    tab, form feed, carriage return and space. *)
Definition isSpace (c : ascii) : bool :=
  let n := nat_of_ascii c in
  ((9 <=? n) && (n <=? 13))%nat || (n =? 32)%nat.

(** The white space of [unicode.IsSpace] that takes two bytes in UTF-8:
    U+0085 and U+00A0. *)
Definition isSpace2 (c1 c2 : ascii) : bool :=
  let n1 := nat_of_ascii c1 in
  let n2 := nat_of_ascii c2 in
  ((n1 =? 194) && ((n2 =? 133) || (n2 =? 160)))%nat.

(** The white space that takes three bytes: U+1680, U+2000 to U+200A,
    U+2028, U+2029, U+202F, U+205F and U+3000. *)
Definition isSpace3 (c1 c2 c3 : ascii) : bool :=
  let n1 := nat_of_ascii c1 in
  let n2 := nat_of_ascii c2 in
  let n3 := nat_of_ascii c3 in
  ((n1 =? 225) && (n2 =? 154) && (n3 =? 128)
   || (n1 =? 226) && (n2 =? 128)
      && ((128 <=? n3) && (n3 <=? 138) || (n3 =? 168) || (n3 =? 169)
          || (n3 =? 175))
   || (n1 =? 226) && (n2 =? 129) && (n3 =? 159)
   || (n1 =? 227) && (n2 =? 128) && (n3 =? 128))%nat.

(** Drop the white-space characters [s] starts with.  With [backwards], [s]
    is a string read from its end, so that the bytes of a character come
    last byte first. *)
Fixpoint trimFront (backwards : bool) (s : string) : string :=
  match s with
  | String c1 s1 =>
      if isSpace c1 then trimFront backwards s1
      else
        match s1 with
        | String c2 s2 =>
            if (if backwards then isSpace2 c2 c1 else isSpace2 c1 c2)
            then trimFront backwards s2
            else
              match s2 with
              | String c3 s3 =>
                  if (if backwards then isSpace3 c3 c2 c1
                      else isSpace3 c1 c2 c3)
                  then trimFront backwards s3
                  else s
              | EmptyString => s
              end
        | EmptyString => s
        end
  | EmptyString => s
  end.

(** [strings.TrimSpace]: the white space at both ends goes, ASCII or not.
    A byte that is not part of a well-formed white-space character stops
    the trimming, as the replacement character Go decodes it to does. *)
Definition TrimSpace (s : string) : string :=
  String.rev (trimFront true (String.rev (trimFront false s))).

Definition digit (c : ascii) : option Z :=
  let n := nat_of_ascii c in
  if ((48 <=? n) && (n <=? 57))%nat then Some (Z.of_nat n - 48) else None.

Fixpoint digits (acc : Z) (s : string) : option Z :=
  match s with
  | EmptyString => Some acc
  | String c s' => d ← digit c; digits (10 * acc + d) s'
  end.

Definition unsigned (s : string) : option Z :=
  match s with
  | EmptyString => None
  | _ => digits 0 s
  end.

Definition Atoi (s : string) : option Z :=
  n ← match s with
      | String "-" s' => Z.opp <$> unsigned s'
      | String "+" s' => unsigned s'
      | _ => unsigned s
      end;
  if (GoInt.min_int <=? n) && (n <=? GoInt.max_int) then Some n else None.

End GoStd.

(** ** What [DisplayBoard] prints *)

(** The text goes to standard output; here it is the function's result, and
    [None] stands for a panic on [gs.board[i][j]] (what was printed before
    the panic is not kept). *)

Definition newline : string := String "010"%char "".

(** [fmt.Sprintf("%2d", n)]: the decimal number, padded with spaces on the
    left to two characters. *)
Definition fmt_2d (n : Z) : string :=
  let s := pretty n in
  if (String.length s <? 2)%nat then " " +:+ s else s.

(** A [for] loop whose body prints: the text of [n] iterations from [i]. *)
Fixpoint print_from (i : Z) (n : nat) (body : Z → option string)
    : option string :=
  match n with
  | O => Some ""
  | S n' =>
      s ← body i; rest ← print_from (i + 1) n' body; Some (s +:+ rest)
  end.

(** [for i := 0; i < size; i++ { body }]. *)
Definition print_range (size : Z) (body : Z → option string)
    : option string :=
  print_from 0 (Z.to_nat size) body.

(** The [switch] on a cell: it has no [default], so a value other than 0,
    1 and 2 prints nothing. *)
Definition printCell (v : Z) : string :=
  if v =? Empty then " . "
  else if v =? Player1 then " X "
  else if v =? Player2 then " O "
  else "".

Definition DisplayBoard (gs : GameState) : option string :=
  columns ← print_range BoardSize (λ j, Some (fmt_2d j +:+ " "));
  rule ← print_range BoardSize (λ _, Some "--+");
  rows ← print_range BoardSize (λ i,
    cells ← print_range BoardSize (λ j,
      v ← cell (board gs) i j; Some (printCell v));
    Some (fmt_2d i +:+ "|" +:+ cells +:+ "|" +:+ pretty i +:+ newline));
  Some (newline +:+ "   " +:+ columns +:+ newline
        +:+ "  +-" +:+ rule +:+ newline
        +:+ rows
        +:+ "  +-" +:+ rule +:+ newline
        +:+ "   " +:+ columns +:+ newline +:+ newline).

(** ** Example boards and states *)

Module Examples.

(** The board [NewBoard(BoardSize)] makes. *)
Definition emptyBoard : Board := replicate 15 (replicate 15 0).

(** Player 1 holds the first five cells of row 7. *)
Definition lineBoard : Board :=
  <[7%nat := [1; 1; 1; 1; 1] ++ replicate 10 0]> emptyBoard.

(** Every cell belongs to player 1, except the corner [(0, 0)]. *)
Definition cornerBoard : Board :=
  <[0%nat := 0 :: replicate 14 1]> (replicate 15 (replicate 15 1)).

(** A state in play on [b], with empty logs. *)
Definition playing (b : Board) (current local : Z) : GameState :=
  {| board := b; currentPlayer := current; winner := 0; gameOver := false;
     playerID := local; chatHistory := []; needsRedraw := false;
     sent := [] |}.

Definition move (player x y : Z) : Message :=
  {| Type_ := MsgTypeMove; Player := player; X := x; Y := y; Content := "";
     Turn := 0; Winner := 0 |}.

Definition state (turn w : Z) : Message :=
  {| Type_ := MsgTypeState; Player := 0; X := 0; Y := 0; Content := "";
     Turn := turn; Winner := w |}.

End Examples.

(** * Specification-level notions *)

(** Does [f] hold somewhere in [i, i + n)? *)
Fixpoint any_from (f : Z → bool) (i : Z) (n : nat) : bool :=
  match n with
  | O => false
  | S n' => f i || any_from f (i + 1) n'
  end.

(** A board of [n] rows of [n] cells. *)
Definition square (n : Z) (board : Board) : Prop :=
  len board = n ∧ Forall (λ r, len r = n) board.

(** [board[i][j] == player], as a total test: false outside the board. *)
Definition holds (board : Board) (player i j : Z) : bool :=
  bool_decide (cell board i j = Some player).

(** The four directions a line can run in, as (row step, column step):
    along a row, along a column, and along the two diagonals. *)
Definition directions : list (Z * Z) := [(0, 1); (1, 0); (1, 1); (1, -1)].

(** Five consecutive cells of [player], from [(i, j)] in direction [d]. *)
Definition run_from (board : Board) (player i j : Z) (d : Z * Z) : Prop :=
  ∀ k, 0 ≤ k < 5 → cell board (i + k * d.1) (j + k * d.2) = Some player.

(** The board contains five in a row for [player]. *)
Definition five_in_a_row (board : Board) (player : Z) : Prop :=
  ∃ i j d, d ∈ directions ∧ run_from board player i j d.

(** No cell of the board is [Empty]. *)
Definition board_full (board : Board) : Prop :=
  ∀ i j, cell board i j ≠ Some Empty.

(** The game fields proper: what a discarded or failed event must leave
    alone. *)
Definition same_game (gs gs' : GameState) : Prop :=
  board gs' = board gs ∧ currentPlayer gs' = currentPlayer gs
  ∧ winner gs' = winner gs ∧ gameOver gs' = gameOver gs.

(** The state holds a board of [BoardSize] by [BoardSize], as [main] makes
    it. *)
Definition well_formed (gs : GameState) : Prop :=
  square BoardSize (board gs).

(** A target a piece can go to: on the board and [Empty]. *)
Definition free_target (board : Board) (x y : Z) : Prop :=
  0 ≤ x < BoardSize ∧ 0 ≤ y < BoardSize ∧ cell board x y = Some Empty.

(** A target that is off the board, or on it and occupied. *)
Definition bad_target (board : Board) (x y : Z) : Prop :=
  ¬ (0 ≤ x < BoardSize ∧ 0 ≤ y < BoardSize)
  ∨ ∃ v, cell board x y = Some v ∧ v ≠ Empty.

(** An inbound move that passes the checks in front of
    [placePieceInternal]: the game is on, the sender is not the local player
    and it is the sender's turn. *)
Definition in_turn (gs : GameState) (msg : Message) : Prop :=
  Type_ msg = MsgTypeMove ∧ gameOver gs = false
  ∧ Player msg ≠ playerID gs ∧ currentPlayer gs = Player msg.

(** [handleNetworkMessage] took the invalid-move branch: the error reply
    went out and no cell changed. *)
Definition rejected_as_invalid (gs : GameState) (msg : Message)
    (gs' : GameState) : Prop :=
  handleNetworkMessage gs msg = Some gs'
  ∧ sent gs' = sent gs ++ [(InPlace, invalidMoveReply)]
  ∧ board gs' = board gs.

(** The sender field of an inbound move is not zero (the schema has 1
    or 2 there). *)
Definition named_sender (ev : Event) : Prop :=
  match ev with
  | Network msg => Type_ msg = MsgTypeMove → Player msg ≠ 0
  | _ => True
  end.

(** [gameOver == true] iff [winner != 0]. *)
Definition over_iff_winner (gs : GameState) : Prop :=
  gameOver gs = true ↔ winner gs ≠ 0.

Section Reachability.

Variable TrimSpace : string → string.
Variable Atoi : string → option Z.

(** A line of input that [handleUserInput] reads as the move [(x, y)]. *)
Definition move_input (input : string) (x y : Z) : Prop :=
  HasPrefix input "/c " = false
  ∧ ∃ part0 part1,
      Split input "," = [part0; part1]
      ∧ Atoi (TrimSpace part0) = Some x ∧ Atoi (TrimSpace part1) = Some y.

(** It is the local player's turn: the three early returns of
    [handleUserInput] are passed. *)
Definition my_turn (gs : GameState) : Prop :=
  playerID gs ≠ 0 ∧ gameOver gs = false ∧ currentPlayer gs = playerID gs.

(** The chat log [h] after [line] was appended to it: the latest 20
    lines, in their order. *)
Definition log_after (h : list string) (line : string) : list string :=
  drop (length (h ++ [line]) - 20) (h ++ [line]).

(** The local chat line went into the log, after the lines that were
    there, and the chat message to a sender goroutine. *)
Definition chat_posted (gs : GameState) (text : string) (gs' : GameState)
    : Prop :=
  let line :=
    chatLine ("You (Player " +:+ pretty (playerID gs) +:+ ")") text in
  chatHistory gs' = log_after (chatHistory gs) line
  ∧ last (chatHistory gs') = Some line
  ∧ sent gs' = sent gs ++ [(Spawned, chatMessage (playerID gs) text)].

(** The states the main loop can be in: either start of [main], then any
    events that satisfy [ok]. *)
Inductive reachable (ok : Event → Prop) : GameState → Prop :=
  | reachable_start (isServer : bool) (gs : GameState) :
      main_start isServer = Some gs → reachable ok gs
  | reachable_step (gs : GameState) (ev : Event) (gs' : GameState) :
      reachable ok gs → ok ev →
      main_step TrimSpace Atoi gs ev = Some gs' → reachable ok gs'.

(** The states that follow [gs], by any events. *)
Inductive later (gs : GameState) : GameState → Prop :=
  | later_now : later gs gs
  | later_step (gs1 : GameState) (ev : Event) (gs2 : GameState) :
      later gs gs1 → main_step TrimSpace Atoi gs1 ev = Some gs2 →
      later gs gs2.

End Reachability.

(** How a placed move is settled: win first, then draw, else the turn goes
    to [next]. *)
Definition settle (gs : GameState) (mover next : Z) (win draw : bool)
    : GameState :=
  if win then set_gameOver (set_winner gs mover) true
  else if draw then set_gameOver (set_winner gs 3) true
  else set_currentPlayer gs next.

(** The state a placed local move leaves: settled, marked for redrawing,
    the final state sent when the game ended, then the move itself. *)
Definition after_local_move (gs : GameState) (b : Board) (x y : Z)
    (win draw : bool) : GameState :=
  let p := playerID gs in
  let g := SetNeedsRedraw (settle (set_board gs b) p (GoInt.sub 3 p) win draw) in
  let g := if win || draw then go_SendMessage g (stateMessage (winner g))
           else g in
  go_SendMessage g (moveMessage p x y).

(** An event that left the board, [winner] and [gameOver] alone. *)
Definition quiet (gs gs' : GameState) : Prop :=
  board gs' = board gs ∧ winner gs' = winner gs ∧ gameOver gs' = gameOver gs.

(** ** Notions for the properties beyond the claims *)

(** The number of [Empty] cells on the board. *)
Definition count_empty (board : Board) : nat :=
  length (filter (λ v, v = Empty) (concat board)).

(** What the renderer and the prompt show of a state. *)
Definition shown (gs : GameState)
    : Board * Z * Z * bool * Z * list string :=
  (board gs, currentPlayer gs, winner gs, gameOver gs, playerID gs,
   chatHistory gs).

(** Two processes that hold the two player numbers. *)
Definition opponents (a b : GameState) : Prop :=
  (playerID a = Player1 ∧ playerID b = Player2)
  ∨ (playerID a = Player2 ∧ playerID b = Player1).

(** Two processes in step: the same board, turn, winner and [gameOver] on
    both sides, the two player numbers between them, and the turn with one
    of the two players. *)
Definition in_sync (a b : GameState) : Prop :=
  well_formed a ∧ same_game a b ∧ opponents a b
  ∧ (currentPlayer a = Player1 ∨ currentPlayer a = Player2).

(** What a message handed to [SendMessage] during an event from [gs] to
    [gs'] can be: the in-place reply to an invalid move; or, from an
    assigned local player, the move just placed on a free cell, the final
    state of a game that just ended, or a chat line with text. *)
Definition sound_outbound (gs gs' : GameState) (out : SendMode * Message)
    : Prop :=
  match out with
  | (InPlace, m) => m = invalidMoveReply
  | (Spawned, m) =>
      playerID gs ≠ 0
      ∧ ((m = moveMessage (playerID gs) (X m) (Y m)
          ∧ free_target (board gs) (X m) (Y m)
          ∧ cell (board gs') (X m) (Y m) = Some (playerID gs))
         ∨ (m = stateMessage (winner gs') ∧ gameOver gs' = true
            ∧ (winner gs' = playerID gs ∨ winner gs' = 3))
         ∨ (∃ text, text ≠ "" ∧ m = chatMessage (playerID gs) text))
  end.

(** One of the three values [DisplayBoard] has a mark for. *)
Definition marked (v : Z) : Prop := v = Empty ∨ v = Player1 ∨ v = Player2.

(** A board [DisplayBoard] can show: 15 by 15, each cell 0, 1 or 2. *)
Definition printable (gs : GameState) : Prop :=
  well_formed gs ∧ ∀ i j v, cell (board gs) i j = Some v → marked v.

(** The [move] and [assign] messages of the event name player 1 or 2. *)
Definition known_player (ev : Event) : Prop :=
  match ev with
  | Network msg =>
      Type_ msg = MsgTypeMove ∨ Type_ msg = MsgTypeAssign →
      Player msg = Player1 ∨ Player msg = Player2
  | _ => True
  end.

(** The chat line [handleNetworkMessage] logs for [msg]. *)
Definition inboundChatLine (msg : Message) : string :=
  chatLine ("Player " +:+ pretty (Player msg)) (Content msg).

(** Everything [handleNetworkMessage] can make of a state, when it
    returns. *)
Inductive network_outcome (gs : GameState) (msg : Message)
    : GameState → Prop :=
  | net_ignored : network_outcome gs msg gs
  | net_invalid :
      in_turn gs msg → bad_target (board gs) (X msg) (Y msg) →
      network_outcome gs msg (SendMessage gs invalidMoveReply)
  | net_placed (b : Board) (win draw : bool) :
      in_turn gs msg → free_target (board gs) (X msg) (Y msg) →
      store (board gs) (X msg) (Y msg) (Player msg) = Some b →
      checkWinLogic b (Player msg) = Some win →
      (win = false → checkDrawLogic b = Some draw) →
      network_outcome gs msg
        (SetNeedsRedraw
           (settle (set_board gs b) (Player msg) (playerID gs) win draw))
  | net_chat :
      Type_ msg = MsgTypeChat → gameOver gs = false →
      Player msg ≠ playerID gs →
      network_outcome gs msg
        (SetNeedsRedraw
           (AddChatMessage gs ("Player " +:+ pretty (Player msg))
              (Content msg)))
  | net_state :
      Type_ msg = MsgTypeState → gameOver gs = false →
      network_outcome gs msg
        (SetNeedsRedraw
           (set_gameOver
              (set_winner (set_currentPlayer gs (Turn msg)) (Winner msg))
              (negb (Winner msg =? 0))))
  | net_assign :
      Type_ msg = MsgTypeAssign → gameOver gs = false → playerID gs = 0 →
      network_outcome gs msg
        (SetNeedsRedraw
           (set_currentPlayer (set_playerID gs (Player msg)) Player1))
  | net_note :
      Type_ msg = MsgTypeError ∨ Type_ msg = MsgTypeNotify →
      gameOver gs = false →
      network_outcome gs msg (SetNeedsRedraw gs).

Section LocalOutcome.

Variable TrimSpace : string → string.
Variable Atoi : string → option Z.

(** Everything [handleUserInput], or the empty-line branch of the loop, can
    make of a state. *)
Inductive local_outcome (gs : GameState) (input : string)
    : GameState → Prop :=
  | loc_ignored : local_outcome gs input (SetNeedsRedraw gs)
  | loc_no_text :
      my_turn gs → HasPrefix input "/c " = true →
      TrimPrefix input "/c " = "" →
      local_outcome gs input gs
  | loc_chat :
      my_turn gs → HasPrefix input "/c " = true →
      TrimPrefix input "/c " ≠ "" →
      local_outcome gs input
        (SetNeedsRedraw
           (AddChatMessage
              (go_SendMessage gs
                 (chatMessage (playerID gs) (TrimPrefix input "/c ")))
              ("You (Player " +:+ pretty (playerID gs) +:+ ")")
              (TrimPrefix input "/c ")))
  | loc_placed (x y : Z) (b : Board) (win draw : bool) :
      my_turn gs → move_input TrimSpace Atoi input x y →
      free_target (board gs) x y →
      store (board gs) x y (playerID gs) = Some b →
      checkWinLogic b (playerID gs) = Some win →
      checkDrawLogic b = Some draw →
      local_outcome gs input (after_local_move gs b x y win draw).

End LocalOutcome.

(** Did a loop body return [true]? *)
Definition hit (r : flow bool) : bool :=
  match r with
  | Ret true => true
  | _ => false
  end.

(** * Properties *)

(** ** The model runs *)

Example checkWin_empty_0 :
  (b ← NewBoard BoardSize; checkWinLogic b Empty) = Some true.
Proof. vm_compute. reflexivity. Qed.

(** Four stones in row 7 do not end the game; the fifth does, for
    player 1. *)
Example scenario_five_in_row :
  (gs ← main_start true;
   gs ← main_run GoStd.TrimSpace GoStd.Atoi gs
     [Input "7,0"; Network (Examples.move 2 0 0);
      Input "7,1"; Network (Examples.move 2 0 1);
      Input "7,2"; Network (Examples.move 2 0 2);
      Input "7, 3"; Network (Examples.move 2 0 3)];
   gs' ← main_run GoStd.TrimSpace GoStd.Atoi gs [Input "7,4"];
   Some (gameOver gs, gameOver gs', winner gs', snd <$> sent gs'))
  = Some (false, true, 1,
          [assignMsg; moveMessage 1 7 0; moveMessage 1 7 1;
           moveMessage 1 7 2; moveMessage 1 7 3; stateMessage 1;
           moveMessage 1 7 4]).
Proof. vm_compute. reflexivity. Qed.

(** The connecting side takes the first assignment and ignores a second. *)
Example scenario_assign :
  (gs ← main_start false;
   gs1 ← handleNetworkMessage gs assignMsg;
   gs2 ← handleNetworkMessage gs1
           (mkMessage MsgTypeAssign 1 0 0 "" 0 0);
   Some (playerID gs1, currentPlayer gs1, playerID gs2, currentPlayer gs2))
  = Some (2, 1, 2, 1).
Proof. vm_compute. reflexivity. Qed.

Example split_move : Split "7, 3" "," = ["7"; " 3"].
Proof. reflexivity. Qed.

Example atoi_signed :
  GoStd.Atoi "-12" = Some (-12) ∧ GoStd.Atoi "+7" = Some 7
  ∧ GoStd.Atoi "" = None ∧ GoStd.Atoi "1x" = None
  ∧ GoStd.Atoi "9223372036854775808" = None.
Proof. vm_compute. done. Qed.

(** White space at the ends goes, ASCII or not: a tab and U+00A0 in
    front, U+3000 and a space behind; what stands between the digits
    stays. *)
Example trim_space_unicode :
  let byte := λ n : Z, ascii_of_nat (Z.to_nat n) in
  GoStd.TrimSpace
    (String (byte 9) (String (byte 194) (String (byte 160)
       ("7 7" +:+ String (byte 227) (String (byte 128) (String (byte 128)
          " "))))))
  = "7 7"
  ∧ GoStd.TrimSpace (String (byte 160) "7") = String (byte 160) "7".
Proof. vm_compute. done. Qed.

Example finished_game_message :
  let finished :=
    set_gameOver (set_winner (Examples.playing Examples.lineBoard 2 1) 1)
      true in
  handleNetworkMessage finished (Examples.state 0 1) = None
  ∧ handleNetworkMessage finished (mkMessage MsgTypeChat 2 0 0 "gg" 0 0)
    = None.
Proof. vm_compute. done. Qed.

Example chat_log_capped :
  length (chatHistory
            (fold_left (λ gs m, AddChatMessage gs "Player 2" m)
               (replicate 25 "hi")
               (Examples.playing Examples.emptyBoard 1 1))) = 20%nat.
Proof. vm_compute. reflexivity. Qed.

(** ** Go integers: small values do not wrap *)

Lemma wrap_in_range (z : Z) : GoInt.in_range z → GoInt.wrap z = z.
Proof.
  unfold GoInt.in_range, GoInt.wrap. intros [Hlo Hhi].
  apply Z.leb_le in Hlo, Hhi. by rewrite Hlo, Hhi.
Qed.

Lemma add_small (a b : Z) :
  0 ≤ a → 0 ≤ b → a + b ≤ GoInt.max_int → GoInt.add a b = a + b.
Proof.
  intros. apply wrap_in_range. unfold GoInt.in_range, GoInt.min_int in *. lia.
Qed.

Lemma sub_small (a b : Z) :
  0 ≤ a ≤ GoInt.max_int → 0 ≤ b ≤ GoInt.max_int → GoInt.sub a b = a - b.
Proof.
  intros. apply wrap_in_range.
  unfold GoInt.in_range, GoInt.min_int, GoInt.max_int in *. lia.
Qed.

(** ** Loops that return a fixed value at the first hit *)

Lemma any_from_true (f : Z → bool) (n : nat) : ∀ i,
  any_from f i n = true ↔ ∃ k, i ≤ k < i + Z.of_nat n ∧ f k = true.
Proof.
  induction n as [|n IH]; intros i; simpl.
  - split; [done | intros (k & ? & _); lia].
  - rewrite orb_true_iff, IH. split.
    + intros [Hi | (k & Hk & Hf)]; [exists i | exists k]; split; auto; lia.
    + intros (k & Hk & Hf). destruct (decide (k = i)) as [-> | Hne]; auto.
      right. exists k. split; [lia | done].
Qed.

Lemma any_from_ext (f g : Z → bool) (n : nat) : ∀ i,
  (∀ k, i ≤ k < i + Z.of_nat n → f k = g k) →
  any_from f i n = any_from g i n.
Proof.
  induction n as [|n IH]; intros i Hfg; simpl; [done |].
  rewrite Hfg by lia. f_equal. apply IH. intros k Hk. apply Hfg. lia.
Qed.

Lemma for_from_hit {A} (a : A) (body : Z → flow A) (f : Z → bool) (n : nat) :
  ∀ i,
  (∀ k, i ≤ k < i + Z.of_nat n → body k = if f k then Ret a else Next) →
  for_from i n body = if any_from f i n then Ret a else Next.
Proof.
  induction n as [|n IH]; intros i Hbody; simpl; [done |].
  rewrite Hbody by lia. destruct (f i); simpl; [done |].
  apply IH. intros k Hk. apply Hbody. lia.
Qed.

Lemma for_range_hit {A} (a : A) (body : Z → flow A) (f : Z → bool) (size : Z) :
  (∀ k, 0 ≤ k < size → body k = if f k then Ret a else Next) →
  for_range size body = if any_from f 0 (Z.to_nat size) then Ret a else Next.
Proof.
  intros Hbody. unfold for_range. apply for_from_hit.
  intros k Hk. apply Hbody. lia.
Qed.

(** ** Reading and writing cells *)

Lemma row_Some (board : Board) (i : Z) :
  0 ≤ i < len board → ∃ r, row board i = Some r ∧ r ∈ board.
Proof.
  unfold row, len. intros Hi.
  destruct (Z.ltb_spec i 0); [lia |].
  destruct (lookup_lt_is_Some_2 board (Z.to_nat i)) as [r Hr]; [lia |].
  exists r. split; [done |]. by eapply list_elem_of_lookup_2.
Qed.

Lemma row_Some_inv (board : Board) (i : Z) (r : list Z) :
  row board i = Some r → 0 ≤ i < len board ∧ r ∈ board.
Proof.
  unfold row, len. destruct (Z.ltb_spec i 0); [done |]. intros Hr.
  split; [| by eapply list_elem_of_lookup_2].
  apply lookup_lt_Some in Hr. lia.
Qed.

Lemma cell_Some_inv (board : Board) (i j v : Z) :
  cell board i j = Some v →
  ∃ r, row board i = Some r ∧ 0 ≤ j < len r ∧ r !! Z.to_nat j = Some v.
Proof.
  unfold cell. destruct (row board i) as [r|]; simpl; [| done].
  destruct (Z.ltb_spec j 0); [done |]. intros Hv.
  exists r. split; [done |]. split; [| done].
  apply lookup_lt_Some in Hv. unfold len. lia.
Qed.

Lemma cell_in_row (board : Board) (i j : Z) (r : list Z) :
  row board i = Some r → 0 ≤ j < len r → is_Some (cell board i j).
Proof.
  unfold cell, len. intros -> Hj. simpl.
  destruct (Z.ltb_spec j 0); [lia |].
  apply lookup_lt_is_Some_2. lia.
Qed.

Lemma square_cell (n : Z) (board : Board) (i j : Z) :
  square n board → 0 ≤ i < n → 0 ≤ j < n → is_Some (cell board i j).
Proof.
  intros [Hlen Hrows] Hi Hj.
  destruct (row_Some board i) as (r & Hr & Hin); [lia |].
  eapply cell_in_row; [done |].
  rewrite Forall_forall in Hrows. rewrite (Hrows r Hin). done.
Qed.

Lemma square_cell_inv (n : Z) (board : Board) (i j v : Z) :
  square n board → cell board i j = Some v → 0 ≤ i < n ∧ 0 ≤ j < n.
Proof.
  intros [Hlen Hrows] Hc.
  apply cell_Some_inv in Hc as (r & Hr & Hj & _).
  apply row_Some_inv in Hr as [Hi Hin].
  rewrite Forall_forall in Hrows. rewrite (Hrows r Hin) in Hj. lia.
Qed.

Lemma cell_is_holds (board : Board) (i j player : Z) :
  is_Some (cell board i j) →
  cell_is board i j player = Some (holds board player i j).
Proof.
  unfold cell_is, holds. intros [v ->]. simpl. f_equal.
  destruct (Z.eqb_spec v player) as [-> | Hne].
  - by rewrite bool_decide_eq_true_2.
  - rewrite bool_decide_eq_false_2; [done | congruence].
Qed.

Lemma holds_outside (n : Z) (board : Board) (player i j : Z) :
  square n board → ¬ (0 ≤ i < n ∧ 0 ≤ j < n) → holds board player i j = false.
Proof.
  intros Hsq Hout. apply bool_decide_eq_false_2. intros Hc.
  apply Hout. by eapply square_cell_inv.
Qed.

(** ** [checkWinLogic] finds exactly the lines of five *)

Lemma and_then_Some (a b : bool) : Some a &&& Some b = Some (a && b).
Proof. by destruct a. Qed.

Ltac same_cell H :=
  match goal with
  | |- cell _ ?x ?y = _ =>
      match type of H with
      | cell _ ?x' ?y' = _ =>
          replace x with x' by lia; replace y with y' by lia; exact H
      end
  end.

(** One direction of the probe at an occupied cell: a bounds guard, then the
    four further cells. *)
Lemma probe_spec (n : Z) (board : Board) (player i j di dj : Z)
    (guard : bool) (c1 c2 c3 c4 : option bool) :
  square n board →
  cell board i j = Some player →
  (guard = true ↔ (0 ≤ i + 4 * di < n ∧ 0 ≤ j + 4 * dj < n)) →
  c1 = cell_is board (i + 1 * di) (j + 1 * dj) player →
  c2 = cell_is board (i + 2 * di) (j + 2 * dj) player →
  c3 = cell_is board (i + 3 * di) (j + 3 * dj) player →
  c4 = cell_is board (i + 4 * di) (j + 4 * dj) player →
  ∃ g : bool,
    Some guard &&& c1 &&& c2 &&& c3 &&& c4 = Some g
    ∧ (g = true ↔ run_from board player i j (di, dj)).
Proof.
  intros Hsq H0 Hguard -> -> -> ->.
  destruct (square_cell_inv _ _ _ _ _ Hsq H0) as [Hi Hj].
  destruct guard.
  - destruct Hguard as [[Hi4 Hj4] _]; [done |].
    rewrite !cell_is_holds by (eapply square_cell; [done | lia | lia]).
    rewrite !and_then_Some. eexists. split; [done |].
    unfold holds. rewrite !andb_true_iff, !bool_decide_eq_true. simpl.
    split.
    + intros [[[[_ H1] H2] H3] H4] k Hk. simpl.
      assert (k = 0 ∨ k = 1 ∨ k = 2 ∨ k = 3 ∨ k = 4) as Hcases by lia.
      destruct Hcases as [-> | [-> | [-> | [-> | ->]]]];
        [same_cell H0 | done | done | done | done].
    + intros Hrun. split_and!; [done | by apply (Hrun 1) | by apply (Hrun 2)
        | by apply (Hrun 3) | by apply (Hrun 4)].
  - exists false. split; [done |]. split; [done |]. intros Hrun.
    assert (0 ≤ i + 4 * di < n ∧ 0 ≤ j + 4 * dj < n) as Hin.
    { eapply square_cell_inv; [done |]. by apply (Hrun 4). }
    apply Hguard in Hin. done.
Qed.

Ltac probe_side :=
  first [ done | f_equal; lia
        | rewrite ?andb_true_iff, ?Z.ltb_lt, ?Z.geb_le; lia ].

Lemma checkWin_at_spec (n : Z) (board : Board) (player i j : Z) :
  square n board → n + 4 ≤ GoInt.max_int →
  0 ≤ i < n → 0 ≤ j < n →
  ∃ w : bool,
    checkWin_at board player n i j = (if w then Ret true else Next)
    ∧ (w = true ↔ ∃ d, d ∈ directions ∧ run_from board player i j d).
Proof.
  intros Hsq Hn Hi Hj. unfold checkWin_at.
  assert (GoInt.max_int = 9223372036854775807) as Hmax by done.
  rewrite (add_small i 1), (add_small i 2), (add_small i 3), (add_small i 4),
    (add_small j 1), (add_small j 2), (add_small j 3), (add_small j 4),
    (sub_small j 1), (sub_small j 2), (sub_small j 3), (sub_small j 4) by lia.
  rewrite !and_then_Some.
  rewrite (cell_is_holds board i j) by (by eapply square_cell).
  destruct (holds board player i j) eqn:H0; cbn [cond].
  - apply bool_decide_eq_true in H0.
    destruct (probe_spec n board player i j 0 1 (j + 4 <? n)
      (cell_is board i (j + 1) player) (cell_is board i (j + 2) player)
      (cell_is board i (j + 3) player) (cell_is board i (j + 4) player))
      as (g1 & Hc & Hg1); try probe_side.
    rewrite Hc. clear Hc.
    destruct (probe_spec n board player i j 1 0 (i + 4 <? n)
      (cell_is board (i + 1) j player) (cell_is board (i + 2) j player)
      (cell_is board (i + 3) j player) (cell_is board (i + 4) j player))
      as (g2 & Hc & Hg2); try probe_side.
    rewrite Hc. clear Hc.
    destruct (probe_spec n board player i j 1 1
      ((i + 4 <? n) && (j + 4 <? n))
      (cell_is board (i + 1) (j + 1) player)
      (cell_is board (i + 2) (j + 2) player)
      (cell_is board (i + 3) (j + 3) player)
      (cell_is board (i + 4) (j + 4) player))
      as (g3 & Hc & Hg3); try probe_side.
    rewrite Hc. clear Hc.
    destruct (probe_spec n board player i j 1 (-1)
      ((i + 4 <? n) && (j - 4 >=? 0))
      (cell_is board (i + 1) (j - 1) player)
      (cell_is board (i + 2) (j - 2) player)
      (cell_is board (i + 3) (j - 3) player)
      (cell_is board (i + 4) (j - 4) player))
      as (g4 & Hc & Hg4); try probe_side.
    rewrite Hc. clear Hc.
    exists (g1 || g2 || g3 || g4). split.
    + by destruct g1, g2, g3, g4.
    + rewrite !orb_true_iff, Hg1, Hg2, Hg3, Hg4. unfold directions. split.
      * intros [[[H | H] | H] | H]; eexists; (split; [| exact H]);
          repeat constructor.
      * intros (d & Hd & Hrun).
        rewrite !elem_of_cons, elem_of_nil in Hd.
        destruct Hd as [-> | [-> | [-> | [-> | []]]]]; tauto.
  - exists false. split; [done |]. split; [done |].
    intros (d & _ & Hrun). apply bool_decide_eq_false in H0.
    destruct H0. specialize (Hrun 0). simpl in Hrun.
    rewrite !Z.add_0_r in Hrun. apply Hrun. lia.
Qed.

Lemma checkWinLogic_spec (n : Z) (board : Board) (player : Z) :
  square n board → n + 4 ≤ GoInt.max_int →
  ∃ w : bool,
    checkWinLogic board player = Some w
    ∧ (w = true ↔ five_in_a_row board player).
Proof.
  intros Hsq Hn. unfold checkWinLogic.
  destruct Hsq as [Hlen Hrows]. rewrite Hlen.
  assert (square n board) as Hsq by done.
  set (at_cell := λ i j, hit (checkWin_at board player n i j)).
  set (in_row := λ i, any_from (at_cell i) 0 (Z.to_nat n)).
  assert (∀ i j, 0 ≤ i < n → 0 ≤ j < n →
    checkWin_at board player n i j = if at_cell i j then Ret true else Next)
    as Hcell.
  { intros i j Hi Hj. unfold at_cell.
    destruct (checkWin_at_spec n board player i j) as (w & -> & _);
      try done. by destruct w. }
  assert (∀ i, 0 ≤ i < n →
    for_range n (λ j, checkWin_at board player n i j)
    = if in_row i then Ret true else Next) as Hrow.
  { intros i Hi. apply for_range_hit. intros j Hj. by apply Hcell. }
  rewrite (for_range_hit true _ in_row) by done.
  exists (any_from in_row 0 (Z.to_nat n)). split.
  { by destruct (any_from in_row 0 (Z.to_nat n)). }
  rewrite any_from_true. unfold in_row. split.
  - intros (i & Hi & Hany). apply any_from_true in Hany as (j & Hj & Hat).
    unfold at_cell in Hat.
    destruct (checkWin_at_spec n board player i j) as (w & Hw & Hiff);
      try done; try lia.
    rewrite Hw in Hat. destruct w; [| done].
    destruct Hiff as [(d & Hd & Hrun) _]; [done |]. by exists i, j, d.
  - intros (i & j & d & Hd & Hrun).
    assert (0 ≤ i < n ∧ 0 ≤ j < n) as [Hi Hj].
    { eapply square_cell_inv; [done |]. specialize (Hrun 0). simpl in Hrun.
      rewrite !Z.add_0_r in Hrun. apply Hrun. lia. }
    exists i. split; [lia |]. apply any_from_true. exists j. split; [lia |].
    unfold at_cell.
    destruct (checkWin_at_spec n board player i j) as (w & -> & Hiff);
      try done.
    destruct Hiff as [_ ->]; [done |]. by exists d.
Qed.

(** ** [checkDrawLogic] finds exactly the full boards, and never panics *)

Lemma checkDraw_at_spec (board : Board) (i j : Z) (r : list Z) :
  row board i = Some r → 0 ≤ j < len r →
  checkDraw_at board i j
  = if holds board Empty i j then Ret false else Next.
Proof.
  intros Hr Hj. unfold checkDraw_at.
  rewrite cell_is_holds by (by eapply cell_in_row).
  by destruct (holds board Empty i j).
Qed.

Lemma checkDrawLogic_spec (board : Board) :
  ∃ d : bool,
    checkDrawLogic board = Some d ∧ (d = true ↔ board_full board).
Proof.
  unfold checkDrawLogic.
  set (in_row := λ i,
    match row board i with
    | Some r => any_from (holds board Empty i) 0 (Z.to_nat (len r))
    | None => false
    end).
  rewrite (for_range_hit false _ in_row).
  - exists (negb (any_from in_row 0 (Z.to_nat (len board)))). split.
    { by destruct (any_from in_row 0 (Z.to_nat (len board))). }
    rewrite negb_true_iff, <- not_true_iff_false, any_from_true.
    unfold board_full, in_row. split.
    + intros Hnone i j Hc. apply Hnone.
      destruct (cell_Some_inv _ _ _ _ Hc) as (r & Hr & Hj & _).
      destruct (row_Some_inv _ _ _ Hr) as [Hi _].
      exists i. split; [lia |]. rewrite Hr. apply any_from_true.
      exists j. split; [lia |]. by apply bool_decide_eq_true.
    + intros Hfull (i & Hi & Hany).
      destruct (row board i) as [r|]; [| done].
      apply any_from_true in Hany as (j & Hj & Hh).
      apply bool_decide_eq_true in Hh. by apply (Hfull i j).
  - intros i Hi. unfold in_row.
    destruct (row_Some board i Hi) as (r & Hr & _). rewrite Hr.
    apply for_range_hit. intros j Hj. by eapply checkDraw_at_spec.
Qed.

(** ** Writing a cell *)

Lemma store_Some (board : Board) (i j v : Z) :
  is_Some (cell board i j) → is_Some (store board i j v).
Proof.
  intros [w Hw]. unfold store.
  destruct (cell_Some_inv _ _ _ _ Hw) as (r & -> & _). simpl.
  rewrite Hw. by eexists.
Qed.

Lemma store_inv (board board' : Board) (i j v : Z) :
  store board i j v = Some board' →
  ∃ r, row board i = Some r ∧ 0 ≤ j < len r
       ∧ board' = <[Z.to_nat i := <[Z.to_nat j := v]> r]> board.
Proof.
  unfold store. destruct (row board i) as [r|] eqn:Hr; simpl; [| done].
  destruct (cell board i j) as [w|] eqn:Hw; simpl; [| done].
  intros [= <-]. exists r. split; [done |]. split; [| done].
  destruct (cell_Some_inv _ _ _ _ Hw) as (r' & Hr' & Hj & _). congruence.
Qed.

Lemma store_square (n : Z) (board board' : Board) (i j v : Z) :
  square n board → store board i j v = Some board' → square n board'.
Proof.
  intros [Hlen Hrows] Hst.
  destruct (store_inv _ _ _ _ _ Hst) as (r & Hr & Hj & ->).
  destruct (row_Some_inv _ _ _ Hr) as [Hi Hin].
  split.
  - unfold len in *. by rewrite length_insert.
  - apply Forall_insert; [done |].
    rewrite Forall_forall in Hrows. specialize (Hrows r Hin).
    unfold len in *. by rewrite length_insert.
Qed.

Lemma cell_store (board board' : Board) (i j v i' j' : Z) :
  store board i j v = Some board' →
  cell board' i' j'
  = if decide (i' = i ∧ j' = j) then Some v else cell board i' j'.
Proof.
  intros Hst. destruct (store_inv _ _ _ _ _ Hst) as (r & Hr & Hj & ->).
  destruct (row_Some_inv _ _ _ Hr) as [Hi _].
  unfold row in Hr. destruct (Z.ltb_spec i 0); [lia |].
  unfold cell, row, len in *.
  destruct (Z.ltb_spec i' 0) as [Hneg | Hpos]; simpl.
  { destruct (decide _) as [[-> _] | _]; [lia | done]. }
  destruct (decide (i' = i)) as [-> | Hne].
  - rewrite list_lookup_insert_eq by (apply lookup_lt_Some in Hr; lia).
    rewrite Hr. simpl.
    destruct (Z.ltb_spec j' 0) as [Hneg' | Hpos'].
    { destruct (decide _) as [[_ ->] | _]; [lia | done]. }
    destruct (decide (j' = j)) as [-> | Hne'].
    + rewrite list_lookup_insert_eq by lia.
      destruct (decide _) as [_ | []]; done.
    + rewrite list_lookup_insert_ne by lia.
      destruct (decide _) as [[_ ?] | _]; done.
  - rewrite list_lookup_insert_ne by lia.
    destruct (decide _) as [[? _] | _]; done.
Qed.

(** ** [placePieceInternal] *)

Lemma placePiece_bad (gs : GameState) (x y player : Z) :
  bad_target (board gs) x y →
  placePieceInternal gs x y player = Some (false, gs).
Proof.
  unfold bad_target, placePieceInternal, BoardSize, Empty.
  intros [Hout | (v & Hv & Hne)].
  - destruct (Z.ltb_spec x 0), (Z.geb_spec x 15), (Z.ltb_spec y 0),
      (Z.geb_spec y 15); simpl; try done; lia.
  - destruct (_ || _); [done |]. rewrite Hv. simpl.
    destruct (Z.eqb_spec v 0); [done | done].
Qed.

Lemma placePiece_free (gs : GameState) (x y player : Z) :
  free_target (board gs) x y →
  ∃ b, store (board gs) x y player = Some b
       ∧ placePieceInternal gs x y player = Some (true, set_board gs b).
Proof.
  unfold free_target, placePieceInternal, BoardSize, Empty.
  intros (Hx & Hy & Hc).
  destruct (store_Some (board gs) x y player) as [b Hb]; [by eexists |].
  exists b. split; [done |].
  destruct (Z.ltb_spec x 0), (Z.geb_spec x 15), (Z.ltb_spec y 0),
    (Z.geb_spec y 15); simpl; try lia.
  rewrite Hc. simpl. by rewrite Hb.
Qed.


Lemma placePiece_inv (gs : GameState) (x y player : Z) (valid : bool)
    (gs' : GameState) :
  placePieceInternal gs x y player = Some (valid, gs') →
  (valid = false ∧ gs' = gs)
  ∨ (valid = true ∧ free_target (board gs) x y
     ∧ ∃ b, store (board gs) x y player = Some b ∧ gs' = set_board gs b).
Proof.
  unfold placePieceInternal, free_target, BoardSize, Empty.
  destruct (Z.ltb_spec x 0), (Z.geb_spec x 15), (Z.ltb_spec y 0),
    (Z.geb_spec y 15); simpl; try (intros [= <- <-]; by left).
  destruct (cell (board gs) x y) as [v|] eqn:Hv; simpl; [| done].
  destruct (Z.eqb_spec v 0) as [-> | Hne]; simpl; [| intros [= <- <-]; by left].
  destruct (store (board gs) x y player) as [b|] eqn:Hb; simpl; [| done].
  intros [= <- <-]. right. split; [done |].
  split; [split_and!; (lia || done) |]. by exists b.
Qed.

(** ** The paths of [handleNetworkMessage] for a move *)

Lemma BoardSize_fits : BoardSize + 4 ≤ GoInt.max_int.
Proof. unfold BoardSize, GoInt.max_int. lia. Qed.

(** Both checks return on the board a placement leaves. *)
Lemma checks_after_store (board b : Board) (x y player mover : Z) :
  square BoardSize board → store board x y player = Some b →
  ∃ win draw : bool,
    checkWinLogic b mover = Some win ∧ checkDrawLogic b = Some draw
    ∧ (win = true ↔ five_in_a_row b mover)
    ∧ (draw = true ↔ board_full b).
Proof.
  intros Hsq Hst.
  destruct (checkWinLogic_spec BoardSize b mover) as (win & Hwin & Hw);
    [by eapply store_square | apply BoardSize_fits |].
  destruct (checkDrawLogic_spec b) as (draw & Hdraw & Hd).
  by exists win, draw.
Qed.

Lemma in_turn_guards (gs : GameState) (msg : Message) :
  in_turn gs msg →
  gameOver gs = false ∧ String.eqb (Type_ msg) MsgTypeMove = true
  ∧ negb (Player msg =? playerID gs) && (currentPlayer gs =? Player msg)
    = true.
Proof.
  intros (Hty & Hover & Hne & Hcur). split; [done |]. split.
  - rewrite Hty. done.
  - rewrite Hcur, Z.eqb_refl, andb_true_r. apply negb_true_iff.
    by apply Z.eqb_neq.
Qed.

Lemma network_move_placed (gs : GameState) (msg : Message) (b : Board) :
  in_turn gs msg → well_formed gs →
  free_target (board gs) (X msg) (Y msg) →
  store (board gs) (X msg) (Y msg) (Player msg) = Some b →
  ∃ win draw : bool,
    checkWinLogic b (Player msg) = Some win ∧ checkDrawLogic b = Some draw
    ∧ (win = true ↔ five_in_a_row b (Player msg))
    ∧ (draw = true ↔ board_full b)
    ∧ handleNetworkMessage gs msg
      = Some (SetNeedsRedraw
                (settle (set_board gs b) (Player msg) (playerID gs) win draw)).
Proof.
  intros Hturn Hwf Hfree Hst.
  destruct (checks_after_store _ _ _ _ _ (Player msg) Hwf Hst)
    as (win & draw & Hwin & Hdraw & Hw & Hd).
  exists win, draw. split_and!; try done.
  destruct (in_turn_guards _ _ Hturn) as (Hover & Hty & Hguard).
  destruct (placePiece_free gs _ _ (Player msg) Hfree) as (b' & Hb' & Hplace).
  assert (b' = b) as -> by congruence.
  unfold handleNetworkMessage, handleNetworkMessage_locked.
  rewrite Hover, Hty, Hguard, Hplace. cbn [mbind option_bind].
  cbn [board set_board]. rewrite Hwin. cbn [mbind option_bind].
  destruct win; [done |]. rewrite Hdraw. cbn [mbind option_bind].
  by destruct draw.
Qed.

Lemma network_move_bad (gs : GameState) (msg : Message) :
  in_turn gs msg → bad_target (board gs) (X msg) (Y msg) →
  handleNetworkMessage gs msg = Some (SendMessage gs invalidMoveReply).
Proof.
  intros Hturn Hbad.
  destruct (in_turn_guards _ _ Hturn) as (Hover & Hty & Hguard).
  unfold handleNetworkMessage, handleNetworkMessage_locked.
  rewrite Hover, Hty, Hguard.
  by rewrite (placePiece_bad gs _ _ (Player msg) Hbad).
Qed.

Lemma network_move_discarded (gs : GameState) (msg : Message) :
  Type_ msg = MsgTypeMove → gameOver gs = false →
  Player msg = playerID gs ∨ Player msg ≠ currentPlayer gs →
  handleNetworkMessage gs msg = Some gs.
Proof.
  intros Hty Hover Hwhy.
  unfold handleNetworkMessage, handleNetworkMessage_locked.
  rewrite Hty, Hover. cbn [String.eqb MsgTypeMove MsgTypeChat]. simpl.
  destruct Hwhy as [Heq | Hne].
  - rewrite Heq, Z.eqb_refl. done.
  - destruct (Z.eqb_spec (currentPlayer gs) (Player msg)) as [Heq | _];
      [by destruct Hne |].
    rewrite andb_false_r. by destruct (Player msg =? playerID gs).
Qed.

(** On a finished game the handler releases [gs.mu] twice: whatever the
    message, the call does not return. *)
Lemma network_fatal_when_over (gs : GameState) (msg : Message) :
  gameOver gs = true → handleNetworkMessage gs msg = None.
Proof.
  intros Hover. unfold handleNetworkMessage, handleNetworkMessage_locked.
  rewrite Hover. simpl. by destruct (String.eqb (Type_ msg) MsgTypeChat).
Qed.

Lemma network_returns_game_on (gs : GameState) (msg : Message)
    (gs' : GameState) :
  handleNetworkMessage gs msg = Some gs' → gameOver gs = false.
Proof.
  intros H. destruct (gameOver gs) eqn:Hover; [| done].
  by rewrite network_fatal_when_over in H.
Qed.

(** ** The paths of [handleUserInput] *)

Section Handlers.

(** As in the model: Go's [strings.TrimSpace] and [strconv.Atoi], whatever
    they compute. *)
Variable TrimSpace : string → string.
Variable Atoi : string → option Z.

Local Abbreviation handleUserInput := (handleUserInput TrimSpace Atoi).
Local Abbreviation move_input := (move_input TrimSpace Atoi).
Local Abbreviation main_step := (main_step TrimSpace Atoi).
Local Abbreviation main_run := (main_run TrimSpace Atoi).
Local Abbreviation reachable := (reachable TrimSpace Atoi).
Local Abbreviation later := (later TrimSpace Atoi).

Lemma my_turn_guards (gs : GameState) :
  my_turn gs →
  (playerID gs =? 0) = false ∧ gameOver gs = false
  ∧ (currentPlayer gs =? playerID gs) = true.
Proof.
  intros (Hid & Hover & Hcur). split_and!; [by apply Z.eqb_neq | done |].
  rewrite Hcur. apply Z.eqb_refl.
Qed.

Lemma not_my_turn (gs : GameState) (input : string) :
  ¬ my_turn gs → handleUserInput gs input = Some (SetNeedsRedraw gs).
Proof.
  intros Hnot. unfold handleUserInput.
  destruct (Z.eqb_spec (playerID gs) 0) as [| Hid]; [done |].
  destruct (gameOver gs) eqn:Hover; [done |].
  destruct (Z.eqb_spec (currentPlayer gs) (playerID gs)) as [Hcur |];
    [| done].
  by destruct Hnot.
Qed.

Lemma local_move_placed (gs : GameState) (input : string) (x y : Z)
    (b : Board) :
  my_turn gs → move_input input x y → well_formed gs →
  free_target (board gs) x y →
  store (board gs) x y (playerID gs) = Some b →
  ∃ win draw : bool,
    checkWinLogic b (playerID gs) = Some win ∧ checkDrawLogic b = Some draw
    ∧ (win = true ↔ five_in_a_row b (playerID gs))
    ∧ (draw = true ↔ board_full b)
    ∧ handleUserInput gs input = Some (after_local_move gs b x y win draw).
Proof.
  intros Hturn (Hpre & p0 & p1 & Hsplit & Hx & Hy) Hwf Hfree Hst.
  destruct (checks_after_store _ _ _ _ _ (playerID gs) Hwf Hst)
    as (win & draw & Hwin & Hdraw & Hw & Hd).
  exists win, draw. split_and!; try done.
  destruct (my_turn_guards _ Hturn) as (Hid & Hover & Hcur).
  destruct (placePiece_free gs _ _ (playerID gs) Hfree)
    as (b' & Hb' & Hplace).
  assert (b' = b) as -> by congruence.
  unfold handleUserInput, handleUserInput_command, localMove_locked.
  rewrite Hid, Hover, Hcur. cbn [negb andb].
  rewrite Hpre, Hsplit, Hx, Hy, Hplace. cbn [mbind option_bind].
  cbn [board set_board]. rewrite Hwin, Hdraw. cbn [mbind option_bind].
  unfold after_local_move.
  by destruct win, draw.
Qed.

Lemma local_move_bad (gs : GameState) (input : string) (x y : Z) :
  my_turn gs → move_input input x y → bad_target (board gs) x y →
  handleUserInput gs input = Some (SetNeedsRedraw gs).
Proof.
  intros Hturn (Hpre & p0 & p1 & Hsplit & Hx & Hy) Hbad.
  destruct (my_turn_guards _ Hturn) as (Hid & Hover & Hcur).
  unfold handleUserInput, handleUserInput_command, localMove_locked.
  rewrite Hid, Hover, Hcur. cbn [negb andb].
  rewrite Hpre, Hsplit, Hx, Hy.
  by rewrite (placePiece_bad gs _ _ (playerID gs) Hbad).
Qed.

Lemma local_chat (gs : GameState) (text : string) :
  my_turn gs → text ≠ "" →
  handleUserInput gs ("/c " +:+ text)
  = Some (SetNeedsRedraw
            (AddChatMessage
               (go_SendMessage gs (chatMessage (playerID gs) text))
               ("You (Player " +:+ pretty (playerID gs) +:+ ")") text)).
Proof.
  intros Hturn Htext.
  destruct (my_turn_guards _ Hturn) as (Hid & Hover & Hcur).
  unfold handleUserInput, handleUserInput_command.
  rewrite Hid, Hover, Hcur. cbn [negb andb].
  assert (HasPrefix ("/c " +:+ text) "/c " = true) as -> by reflexivity.
  assert (TrimPrefix ("/c " +:+ text) "/c " = text) as -> by reflexivity.
  assert (String.eqb text "" = false) as Hne.
  { by apply String.eqb_neq. }
  rewrite Hne. cbn [negb mbind option_bind]. by rewrite Hne.
Qed.

(** ** What one event can do to the game *)

Lemma in_turn_or_not (gs : GameState) (msg : Message) :
  Type_ msg = MsgTypeMove → gameOver gs = false →
  in_turn gs msg
  ∨ (Player msg = playerID gs ∨ Player msg ≠ currentPlayer gs).
Proof.
  intros Hty Hover. unfold in_turn.
  destruct (decide (Player msg = playerID gs)); [by right; left |].
  destruct (decide (Player msg = currentPlayer gs));
    [by left | by right; right].
Qed.

Lemma same_game_refl (gs : GameState) : same_game gs gs.
Proof. done. Qed.

Lemma my_turn_or_not (gs : GameState) : my_turn gs ∨ ¬ my_turn gs.
Proof.
  unfold my_turn.
  destruct (decide (playerID gs = 0)); [right; tauto |].
  destruct (gameOver gs); [right; intros (_ & ? & _); done |].
  destruct (decide (currentPlayer gs = playerID gs)); [by left |].
  right; tauto.
Qed.

Lemma network_inv (gs : GameState) (msg : Message) (gs' : GameState) :
  handleNetworkMessage gs msg = Some gs' →
  quiet gs gs'
  ∨ (gameOver gs = false ∧ Type_ msg = MsgTypeState ∧ board gs' = board gs
     ∧ winner gs' = Winner msg ∧ gameOver gs' = negb (Winner msg =? 0))
  ∨ (in_turn gs msg ∧ free_target (board gs) (X msg) (Y msg)
     ∧ ∃ b win draw,
         store (board gs) (X msg) (Y msg) (Player msg) = Some b
         ∧ gs' = SetNeedsRedraw
                   (settle (set_board gs b) (Player msg) (playerID gs)
                      win draw)).
Proof.
  unfold handleNetworkMessage, handleNetworkMessage_locked. intros H.
  destruct (gameOver gs) eqn:Hover.
  { left. destruct (String.eqb _ _) in H; simplify_eq/=; done. }
  destruct (String.eqb (Type_ msg) MsgTypeMove) eqn:Hmove.
  { apply String.eqb_eq in Hmove.
    destruct (negb (Player msg =? playerID gs)
              && (currentPlayer gs =? Player msg)) eqn:Hguard.
    - destruct (placePieceInternal gs (X msg) (Y msg) (Player msg))
        as [[valid gs1]|] eqn:Hplace; simpl in H; [| done].
      apply placePiece_inv in Hplace
        as [[-> ->] | (-> & Hfree & b & Hb & ->)].
      + left. simplify_eq/=. done.
      + right; right.
        apply andb_true_iff in Hguard as [Hne Hcur].
        apply negb_true_iff, Z.eqb_neq in Hne. apply Z.eqb_eq in Hcur.
        split; [done |]. split; [done |].
        cbn [board set_board] in H.
        destruct (checkWinLogic b (Player msg)) as [win|]; simpl in H;
          [| done].
        destruct win.
        { exists b, true, false. by simplify_eq/=. }
        destruct (checkDrawLogic b) as [draw|]; simpl in H; [| done].
        exists b, false, draw. by destruct draw; simplify_eq/=.
    - left. destruct (Player msg =? playerID gs); simplify_eq/=; done. }
  destruct (String.eqb (Type_ msg) MsgTypeChat).
  { left. destruct (negb _) in H; simplify_eq/=; done. }
  destruct (String.eqb (Type_ msg) MsgTypeState) eqn:Hstate.
  { right; left. apply String.eqb_eq in Hstate. by simplify_eq/=. }
  left.
  destruct (String.eqb (Type_ msg) MsgTypeAssign).
  { destruct (playerID gs =? 0); [| simplify_eq/=; done].
    cbn [playerID set_playerID] in H.
    destruct (Player msg =? Player1) in H; simplify_eq/=; done. }
  destruct (String.eqb (Type_ msg) MsgTypeError); [by simplify_eq/= |].
  destruct (String.eqb (Type_ msg) MsgTypeNotify); by simplify_eq/=.
Qed.

Lemma local_inv (gs : GameState) (input : string) (gs' : GameState) :
  handleUserInput gs input = Some gs' →
  quiet gs gs'
  ∨ (my_turn gs
     ∧ ∃ x y b win draw,
         free_target (board gs) x y
         ∧ store (board gs) x y (playerID gs) = Some b
         ∧ gs' = after_local_move gs b x y win draw).
Proof.
  intros H.
  destruct (my_turn_or_not gs) as [Hturn | Hnot].
  2: { rewrite (not_my_turn gs input Hnot) in H.
       left. by simplify_eq/=. }
  destruct (my_turn_guards _ Hturn) as (Hid & Hover & Hcur).
  unfold handleUserInput, handleUserInput_command, localMove_locked in H.
  rewrite Hid, Hover, Hcur in H. cbn [negb andb] in H.
  destruct (HasPrefix input "/c ").
  { left. destruct (negb (String.eqb (TrimPrefix input "/c ") "")) eqn:Hc;
      simpl in H; [rewrite Hc in H |]; by simplify_eq/=. }
  destruct (Split input ",") as [| part0 [| part1 [| ? ?]]];
    try (left; by simplify_eq/=).
  destruct (Atoi (TrimSpace part0)) as [x|]; [| left; by simplify_eq/=].
  destruct (Atoi (TrimSpace part1)) as [y|]; [| left; by simplify_eq/=].
  destruct (placePieceInternal gs x y (playerID gs))
    as [[valid gs1]|] eqn:Hplace; simpl in H; [| done].
  apply placePiece_inv in Hplace as [[-> ->] | (-> & Hfree & b & Hb & ->)].
  { left. by simplify_eq/=. }
  right. split; [done |]. exists x, y, b.
  cbn [board set_board] in H.
  destruct (checkWinLogic b (playerID gs)) as [win|]; simpl in H; [| done].
  destruct (checkDrawLogic b) as [draw|]; simpl in H; [| done].
  exists win, draw. split; [done |]. split; [done |].
  unfold after_local_move. by destruct win, draw; simplify_eq/=.
Qed.

(** * The claims *)

(** ** Rules engine *)

Lemma square_BoardSize_check (b : Board) :
  bool_decide (len b = BoardSize ∧ Forall (λ r, len r = BoardSize) b) = true →
  square BoardSize b.
Proof. intros H. by apply bool_decide_eq_true in H. Qed.

(** Claim C1.  On a 15x15 board, for a player [p] in {1, 2},
    [checkWinLogic] returns, and returns [true] exactly when the board has
    five consecutive cells of [p] along a row, a column or a diagonal; on
    the board [NewBoard] makes it returns [false]. *)
Theorem checkWinLogic_iff_five_in_a_row (board : Board) (p : Z) :
  square BoardSize board → p = Player1 ∨ p = Player2 →
  (∃ w : bool,
     checkWinLogic board p = Some w ∧ (w = true ↔ five_in_a_row board p))
  ∧ (NewBoard BoardSize ≫= λ b, checkWinLogic b p) = Some false.
Proof.
  intros Hsq Hp. split.
  - apply (checkWinLogic_spec BoardSize); [done | apply BoardSize_fits].
  - destruct Hp as [-> | ->]; vm_compute; reflexivity.
Qed.

Lemma checkWinLogic_iff_five_in_a_row_witness :
  square BoardSize Examples.lineBoard ∧ (1 = Player1 ∨ 1 = Player2)
  ∧ (∃ w : bool,
       checkWinLogic Examples.lineBoard 1 = Some w
       ∧ (w = true ↔ five_in_a_row Examples.lineBoard 1))
  ∧ (NewBoard BoardSize ≫= λ b, checkWinLogic b 1) = Some false.
Proof.
  assert (square BoardSize Examples.lineBoard) as Hsq.
  { apply square_BoardSize_check. vm_compute. reflexivity. }
  split; [exact Hsq |]. split; [left; reflexivity |].
  apply (checkWinLogic_iff_five_in_a_row Examples.lineBoard 1 Hsq).
  left. reflexivity.
Defined.

(** Claim C10.  [checkWinLogic] has no case for [Empty]: asked about
    player 0 on the board [NewBoard(BoardSize)] makes, it returns [true],
    the five empty cells from [(0, 0)] along row 0 being a run like any
    other. *)
Theorem checkWinLogic_Empty_on_new_board :
  ∃ b : Board,
    NewBoard BoardSize = Some b
    ∧ run_from b Empty 0 0 (0, 1)
    ∧ checkWinLogic b Empty = Some true.
Proof.
  exists Examples.emptyBoard. split; [reflexivity |]. split.
  - intros k Hk.
    assert (k = 0 ∨ k = 1 ∨ k = 2 ∨ k = 3 ∨ k = 4) as Hcases by lia.
    destruct Hcases as [-> | [-> | [-> | [-> | ->]]]]; reflexivity.
  - vm_compute. reflexivity.
Qed.

(** ** Inbound messages *)

(** Claim C8.  While the game is on, a [state] message sets
    [currentPlayer] to its [Turn], [winner] to its [Winner] and [gameOver]
    to [Winner != 0], and leaves the board as it is. *)
Theorem state_message_overwrites (gs : GameState) (msg : Message) :
  gameOver gs = false → Type_ msg = MsgTypeState →
  ∃ gs',
    handleNetworkMessage gs msg = Some gs'
    ∧ currentPlayer gs' = Turn msg
    ∧ winner gs' = Winner msg
    ∧ gameOver gs' = bool_decide (Winner msg ≠ 0)
    ∧ board gs' = board gs.
Proof.
  intros Hover Hty. unfold handleNetworkMessage, handleNetworkMessage_locked.
  rewrite Hover, Hty. cbn. eexists. split; [reflexivity |]. cbn.
  split_and!; try done.
  destruct (Z.eqb_spec (Winner msg) 0) as [Hw | Hw]; simpl.
  - by rewrite bool_decide_eq_false_2 by (by intros []).
  - by rewrite bool_decide_eq_true_2.
Qed.

Lemma state_message_overwrites_witness :
  ∃ gs',
    handleNetworkMessage
      (Examples.playing Examples.lineBoard 1 2) (Examples.state 0 3)
    = Some gs'
    ∧ currentPlayer gs' = 0 ∧ winner gs' = 3 ∧ gameOver gs' = true
    ∧ board gs' = Examples.lineBoard.
Proof.
  apply (state_message_overwrites
           (Examples.playing Examples.lineBoard 1 2) (Examples.state 0 3));
    reflexivity.
Defined.

(** Claim C4.  A [move] message whose sender is not the recorded
    [currentPlayer], or is the local player itself, is dropped while the
    game is on: the handler returns the state it was given, so the board,
    [currentPlayer], [winner] and [gameOver] are what they were (and nothing
    is sent).  On a finished game the handler means to ignore the message
    as well, but it has released [gs.mu] in the game-over branch and
    releases it again after it: the call does not return. *)
Theorem out_of_turn_move_discarded (gs : GameState) (msg : Message) :
  Type_ msg = MsgTypeMove →
  Player msg ≠ currentPlayer gs ∨ Player msg = playerID gs →
  handleNetworkMessage gs msg = (if gameOver gs then None else Some gs)
  ∧ ∀ gs', handleNetworkMessage gs msg = Some gs' →
           gameOver gs = false ∧ same_game gs gs'.
Proof.
  intros Hty Hwhy.
  destruct (gameOver gs) eqn:Hover.
  - rewrite (network_fatal_when_over gs msg Hover). by split.
  - assert (handleNetworkMessage gs msg = Some gs) as Hsame.
    { apply network_move_discarded; [done | done |]. tauto. }
    split; [done |]. intros gs' Hgs'. rewrite Hsame in Hgs'.
    by injection Hgs' as <-.
Qed.

Lemma out_of_turn_move_discarded_witness :
  let playing := Examples.playing Examples.emptyBoard 1 1 in
  let finished := set_gameOver (set_winner playing 1) true in
  handleNetworkMessage playing (Examples.move 2 7 7) = Some playing
  ∧ handleNetworkMessage playing (Examples.move 1 7 7) = Some playing
  ∧ handleNetworkMessage finished (Examples.move 2 7 7) = None.
Proof.
  intros playing finished. split_and!.
  - apply (out_of_turn_move_discarded playing (Examples.move 2 7 7));
      [reflexivity | left; simpl; lia].
  - apply (out_of_turn_move_discarded playing (Examples.move 1 7 7));
      [reflexivity | right; reflexivity].
  - apply (out_of_turn_move_discarded finished (Examples.move 2 7 7));
      [reflexivity | left; simpl; lia].
Defined.

(** ** Moves, local and inbound *)

(** Claim C3.  A move to a cell that is off the board or occupied fails:
    [placePieceInternal] returns [false] and the state it was given.  The
    handler of an inbound move calls it only while the game is on, and
    the handler of a local move only on the local turn.  While the game is
    on, the handler of an inbound move to that cell returns with the board,
    [currentPlayer], [winner] and [gameOver] as before, whether the call
    failed or the turn check dropped the move before it; so does the
    handler of a local move to it, in every state. *)
Theorem invalid_move_changes_nothing (gs : GameState) (x y : Z) :
  bad_target (board gs) x y →
  (∀ player, placePieceInternal gs x y player = Some (false, gs))
  ∧ (∀ msg, Type_ msg = MsgTypeMove → gameOver gs = false →
       X msg = x → Y msg = y →
       ∃ gs', handleNetworkMessage gs msg = Some gs' ∧ same_game gs gs')
  ∧ (∀ input, move_input input x y →
       ∃ gs', handleUserInput gs input = Some gs' ∧ same_game gs gs').
Proof.
  intros Hbad. split_and!.
  - intros player. by apply placePiece_bad.
  - intros msg Hty Hover <- <-.
    destruct (in_turn_or_not gs msg Hty Hover) as [Hturn | Hnot].
    + rewrite (network_move_bad gs msg Hturn Hbad). by eexists.
    + rewrite (network_move_discarded gs msg Hty Hover Hnot). by eexists.
  - intros input Hinput.
    destruct (my_turn_or_not gs) as [Hturn | Hnot].
    + rewrite (local_move_bad gs input x y Hturn Hinput Hbad).
      by eexists.
    + rewrite (not_my_turn gs input Hnot). by eexists.
Qed.

(** Claim C2.  Win before draw.  Let a move of player [p] (1 or 2) to a
    free cell leave a board that has five in a row for [p] and no empty
    cell, so that [checkDrawLogic] holds of it too.  Made locally on [p]'s
    turn, or received from [p] on [p]'s turn, the move ends the game with
    [winner = p], not with the draw value 3. *)
Theorem win_checked_before_draw (gs : GameState) (x y p : Z) (b : Board) :
  well_formed gs → p = Player1 ∨ p = Player2 →
  free_target (board gs) x y → store (board gs) x y p = Some b →
  five_in_a_row b p → board_full b →
  checkDrawLogic b = Some true
  ∧ (∀ input, playerID gs = p → my_turn gs → move_input input x y →
       ∃ gs', handleUserInput gs input = Some gs'
              ∧ winner gs' = p ∧ gameOver gs' = true ∧ winner gs' ≠ 3)
  ∧ (∀ msg, in_turn gs msg → Player msg = p → X msg = x → Y msg = y →
       ∃ gs', handleNetworkMessage gs msg = Some gs'
              ∧ winner gs' = p ∧ gameOver gs' = true ∧ winner gs' ≠ 3).
Proof.
  intros Hwf Hp Hfree Hst Hfive Hfull.
  assert (p ≠ 3) as Hp3 by (unfold Player1, Player2 in Hp; lia).
  split_and!.
  - destruct (checkDrawLogic_spec b) as (d & -> & Hd). f_equal. by apply Hd.
  - intros input <- Hturn Hinput.
    destruct (local_move_placed gs input x y b)
      as (win & draw & _ & _ & Hw & _ & ->); try done.
    apply Hw in Hfive as ->. eexists. split; [done |].
    unfold after_local_move. by cbn.
  - intros msg Hturn <- <- <-.
    destruct (network_move_placed gs msg b)
      as (win & draw & _ & _ & Hw & _ & ->); try done.
    apply Hw in Hfive as ->. eexists. split; [done |]. by cbn.
Qed.

(** Claim C5.  A move to a free cell is applied, and when it does not end
    the game the turn goes to the player who did not move: after a local
    move [currentPlayer] is [3 - playerID] (2 for player 1, 1 for
    player 2); after an accepted inbound move it is the local [playerID],
    which is not the sender. *)
Theorem turn_passes_to_other_player (gs : GameState) (x y : Z) :
  well_formed gs → free_target (board gs) x y →
  (∀ input, my_turn gs → move_input input x y →
     ∃ gs', handleUserInput gs input = Some gs'
            ∧ (gameOver gs' = false →
               currentPlayer gs' = GoInt.sub 3 (playerID gs)
               ∧ (playerID gs = Player1 ∨ playerID gs = Player2 →
                  currentPlayer gs' = 3 - playerID gs
                  ∧ currentPlayer gs' ≠ playerID gs)))
  ∧ (∀ msg, in_turn gs msg → X msg = x → Y msg = y →
       ∃ gs', handleNetworkMessage gs msg = Some gs'
              ∧ (gameOver gs' = false →
                 currentPlayer gs' = playerID gs
                 ∧ currentPlayer gs' ≠ Player msg)).
Proof.
  intros Hwf Hfree. split.
  - intros input Hturn Hinput.
    destruct (placePiece_free gs x y (playerID gs) Hfree) as (b & Hb & _).
    destruct (local_move_placed gs input x y b)
      as (win & draw & _ & _ & _ & _ & ->); try done.
    eexists. split; [done |]. unfold after_local_move.
    destruct win, draw; cbn; try done.
    intros _. split; [done |].
    unfold Player1, Player2. intros [-> | ->]; by vm_compute.
  - intros msg Hturn <- <-.
    destruct (placePiece_free gs _ _ (Player msg) Hfree) as (b & Hb & _).
    destruct (network_move_placed gs msg b)
      as (win & draw & _ & _ & _ & _ & ->); try done.
    eexists. split; [done |].
    destruct Hturn as (_ & _ & Hne & _).
    destruct win, draw; cbn; done.
Qed.

(** ** Chat from the console *)

Lemma AddChatMessage_last (gs : GameState) (sender message : string) :
  last (chatHistory (AddChatMessage gs sender message))
  = Some (chatLine sender message).
Proof.
  unfold AddChatMessage. cbn [chatHistory set_chatHistory].
  set (h := chatHistory gs ++ [chatLine sender message]).
  assert (last h = Some (chatLine sender message)) as Hlast
    by apply last_snoc.
  destruct (Z.gtb_spec (len h) maxChatHistory) as [Hlong | _]; [| done].
  rewrite last_lookup in Hlast. rewrite last_lookup, length_drop, lookup_drop.
  rewrite <- Hlast. f_equal. unfold len, maxChatHistory in *. lia.
Qed.

Lemma AddChatMessage_log_after (gs : GameState) (sender message : string) :
  chatHistory (AddChatMessage gs sender message)
  = log_after (chatHistory gs) (chatLine sender message).
Proof.
  unfold AddChatMessage, log_after. cbn [chatHistory set_chatHistory].
  set (h := chatHistory gs ++ [chatLine sender message]).
  unfold len, maxChatHistory.
  destruct (Z.gtb_spec (Z.of_nat (length h)) 20) as [Hlong | Hshort].
  - f_equal. lia.
  - replace (length h - 20)%nat with 0%nat by lia. done.
Qed.

(** Claim C9, as the code has it.  A line ["/c "] followed by a non-empty
    text is handled without a change to the game fields.  When the local
    player is assigned, the game is on and it is the local player's turn,
    the chat line is appended to the local log (which keeps its latest 20
    lines) and a chat message with that text is handed to a sender
    goroutine.  Otherwise the line is ignored: the log is as it was and
    nothing is sent. *)
Theorem chat_posted_on_my_turn (gs : GameState) (text : string) :
  text ≠ "" →
  ∃ gs', handleUserInput gs ("/c " +:+ text) = Some gs'
         ∧ same_game gs gs'
         ∧ (my_turn gs → chat_posted gs text gs')
         ∧ (¬ my_turn gs →
            chatHistory gs' = chatHistory gs ∧ sent gs' = sent gs
            ∧ gs' = SetNeedsRedraw gs).
Proof.
  intros Htext. destruct (my_turn_or_not gs) as [Hturn | Hnot].
  - rewrite (local_chat gs text Hturn Htext).
    eexists. split; [done |]. split; [done |]. split; [| done].
    intros _. split_and!.
    + cbn [chatHistory SetNeedsRedraw set_needsRedraw].
      by rewrite AddChatMessage_log_after.
    + cbn [chatHistory SetNeedsRedraw set_needsRedraw].
      by rewrite AddChatMessage_last.
    + done.
  - rewrite (not_my_turn gs _ Hnot).
    eexists. split; [done |]. split; [done |]. split; done.
Qed.

(** ** The state machine of the main loop *)

Lemma over_iff_quiet (gs gs' : GameState) :
  quiet gs gs' → over_iff_winner gs → over_iff_winner gs'.
Proof.
  unfold over_iff_winner. intros (_ & Hw & Ho) Hinv. by rewrite Hw, Ho.
Qed.

Lemma over_iff_settle (gs : GameState) (mover next : Z) (win draw : bool) :
  mover ≠ 0 → over_iff_winner gs →
  over_iff_winner (settle gs mover next win draw).
Proof.
  unfold over_iff_winner, settle. intros Hmover Hinv.
  destruct win, draw; cbn; (done || (split; [intros _; lia | done])).
Qed.

Lemma board_after_network_move (gs : GameState) (b : Board)
    (mover next : Z) (win draw : bool) :
  board (SetNeedsRedraw (settle (set_board gs b) mover next win draw)) = b.
Proof. by destruct win, draw. Qed.

Lemma board_after_local_move (gs : GameState) (b : Board) (x y : Z)
    (win draw : bool) :
  board (after_local_move gs b x y win draw) = b.
Proof. by destruct win, draw. Qed.

Lemma store_keeps_occupied (board b : Board) (x y p i j v : Z) :
  free_target board x y → store board x y p = Some b →
  cell board i j = Some v → v ≠ Empty → cell b i j = Some v.
Proof.
  intros (_ & _ & Hfree) Hst Hc Hv. rewrite (cell_store _ _ _ _ _ _ _ Hst).
  destruct (decide (i = x ∧ j = y)) as [[-> ->] | _]; [congruence | done].
Qed.

Lemma main_run_reachable (ok : Event → Prop) (evs : list Event) :
  ∀ gs gs', reachable ok gs → Forall ok evs →
            main_run gs evs = Some gs' → reachable ok gs'.
Proof.
  induction evs as [| ev evs IH]; intros gs gs' Hreach Hok Hrun.
  - by simplify_eq/=.
  - simpl in Hrun. apply Forall_cons in Hok as [Hev Hok].
    destruct (main_step gs ev) as [gs1|] eqn:Hstep; simpl in Hrun; [| done].
    apply (IH gs1); [| done | done]. by eapply reachable_step.
Qed.

Lemma start_over_iff (isServer : bool) (gs : GameState) :
  main_start isServer = Some gs → over_iff_winner gs.
Proof.
  unfold main_start, newGameState, over_iff_winner.
  destruct (NewBoard BoardSize) as [b|]; simpl; [| done].
  destruct isServer; intros [= <-]; cbn; done.
Qed.

Lemma step_over_iff (gs : GameState) (ev : Event) (gs' : GameState) :
  named_sender ev → main_step gs ev = Some gs' →
  over_iff_winner gs → over_iff_winner gs'.
Proof.
  intros Hok Hstep Hinv. destruct ev as [input | msg |]; simpl in Hstep.
  - destruct (negb (String.eqb input "")).
    + apply local_inv in Hstep
        as [Hq | ((Hid & _) & x & y & b & win & draw & _ & _ & ->)].
      * by eapply over_iff_quiet.
      * unfold after_local_move.
        assert (over_iff_winner
                  (settle (set_board gs b) (playerID gs)
                     (GoInt.sub 3 (playerID gs)) win draw)) as Hs.
        { apply over_iff_settle; done. }
        revert Hs. unfold over_iff_winner. by destruct (win || draw).
    + by simplify_eq/=.
  - apply network_inv in Hstep
      as [Hq | [(_ & _ & _ & Hw & Ho)
               | ((Hty & _) & _ & b & win & draw & _ & ->)]].
    + by eapply over_iff_quiet.
    + unfold over_iff_winner. rewrite Hw, Ho, negb_true_iff.
      apply Z.eqb_neq.
    + assert (over_iff_winner
                (settle (set_board gs b) (Player msg) (playerID gs)
                   win draw)) as Hs.
      { apply over_iff_settle; [by apply Hok | done]. }
      exact Hs.
  - by simplify_eq/=.
Qed.

(** Claim C6, as the code has it.  From either start of [main], through
    any events in which every inbound move names a sender other than 0,
    [gameOver == true] holds exactly when [winner != 0]. *)
Theorem game_over_iff_winner (gs : GameState) :
  reachable named_sender gs → over_iff_winner gs.
Proof.
  induction 1 as [isServer gs Hstart | gs ev gs' _ IH Hok Hstep].
  - by eapply start_over_iff.
  - by eapply step_over_iff.
Qed.

Lemma step_keeps_occupied (gs : GameState) (ev : Event) (gs' : GameState)
    (i j v : Z) :
  main_step gs ev = Some gs' →
  cell (board gs) i j = Some v → v ≠ Empty →
  cell (board gs') i j = Some v.
Proof.
  intros Hstep Hc Hv. destruct ev as [input | msg |]; simpl in Hstep.
  - destruct (negb (String.eqb input "")).
    + apply local_inv in Hstep
        as [(Hb & _) | (_ & x & y & b & win & draw & Hfree & Hst & ->)].
      * by rewrite Hb.
      * rewrite board_after_local_move. by eapply store_keeps_occupied.
    + by simplify_eq/=.
  - apply network_inv in Hstep
      as [(Hb & _) | [(_ & _ & Hb & _)
                     | (_ & Hfree & b & win & draw & Hst & ->)]].
    + by rewrite Hb.
    + by rewrite Hb.
    + rewrite board_after_network_move. by eapply store_keeps_occupied.
  - by simplify_eq/=.
Qed.

Lemma later_keeps_occupied (gs gs2 : GameState) (i j v : Z) :
  later gs gs2 →
  cell (board gs) i j = Some v → v ≠ Empty →
  cell (board gs2) i j = Some v.
Proof.
  induction 1 as [| gs1 ev gs2 _ IH Hstep]; intros Hc Hv; [done |].
  eapply step_keeps_occupied; [done | by apply IH | done].
Qed.

(** Claim C7, as the code has it.  Let [handleNetworkMessage] have placed
    the move [msg] without ending the game.  Delivered again at once,
    [msg] is dropped by the turn check in front of [placePieceInternal]
    (the turn has gone to the local player): the state, every cell
    included, stays as it is, and no invalid-move reply goes out.  When the
    sender is not 0 the cell is occupied from then on, so
    [placePieceInternal] refuses it; delivered again in any later state of
    the game in progress, [msg] changes no cell, and it is either dropped
    or, where it passes the turn check, rejected as an invalid move. *)
Theorem replayed_move_changes_no_cell (gs : GameState) (msg : Message)
    (gs' : GameState) :
  well_formed gs → in_turn gs msg →
  free_target (board gs) (X msg) (Y msg) →
  handleNetworkMessage gs msg = Some gs' →
  (gameOver gs' = false → handleNetworkMessage gs' msg = Some gs')
  ∧ (Player msg ≠ 0 →
     placePieceInternal gs' (X msg) (Y msg) (Player msg) = Some (false, gs')
     ∧ ∀ gs2, later gs' gs2 → gameOver gs2 = false →
         ∃ gs3, handleNetworkMessage gs2 msg = Some gs3
                ∧ board gs3 = board gs2
                ∧ (gs3 = gs2 ∨ rejected_as_invalid gs2 msg gs3)).
Proof.
  intros Hwf Hturn Hfree Happlied.
  destruct (placePiece_free gs _ _ (Player msg) Hfree) as (b & Hb & _).
  destruct (network_move_placed gs msg b)
    as (win & draw & _ & _ & _ & _ & Heq); try done.
  rewrite Heq in Happlied. injection Happlied as <-.
  assert (cell b (X msg) (Y msg) = Some (Player msg)) as Hcell.
  { rewrite (cell_store _ _ _ _ _ _ _ Hb).
    by destruct (decide _) as [_ | []]. }
  set (gs' := SetNeedsRedraw
                (settle (set_board gs b) (Player msg) (playerID gs) win draw)).
  assert (board gs' = b) as Hboard by apply board_after_network_move.
  destruct Hturn as (Hty & Hover & Hne & Hcur).
  split.
  - intros Hon. apply network_move_discarded; [done | done |].
    subst gs'. destruct win; [done |]. destruct draw; [done |].
    right. by cbn.
  - intros Hsender.
    assert (∀ gs2, cell (board gs2) (X msg) (Y msg) = Some (Player msg) →
                   bad_target (board gs2) (X msg) (Y msg)) as Hbad.
    { intros gs2 Hc. right. by exists (Player msg). }
    split.
    + apply placePiece_bad, Hbad. by rewrite Hboard.
    + intros gs2 Hlater Hon.
      assert (cell (board gs2) (X msg) (Y msg) = Some (Player msg)) as Hc2.
      { eapply later_keeps_occupied; [done | by rewrite Hboard | done]. }
      destruct (in_turn_or_not gs2 msg Hty Hon) as [Hturn2 | Hnot].
      * pose proof (network_move_bad gs2 msg Hturn2 (Hbad gs2 Hc2)) as Hrej.
        eexists. split; [done |]. split; [done |]. right. by split.
      * rewrite (network_move_discarded gs2 msg Hty Hon Hnot).
        eexists. split; [done |]. split; [done |]. by left.
Qed.

Lemma square_examples :
  square BoardSize Examples.emptyBoard
  ∧ square BoardSize Examples.lineBoard
  ∧ square BoardSize Examples.cornerBoard.
Proof. split_and!; apply square_BoardSize_check; vm_compute; reflexivity. Qed.

(** ** The handlers return: no index leaves the board *)




Lemma main_step_well_formed (gs : GameState) (ev : Event) (gs' : GameState) :
  main_step gs ev = Some gs' → well_formed gs → well_formed gs'.
Proof.
  unfold well_formed. intros Hstep Hwf.
  destruct ev as [input | msg |]; simpl in Hstep.
  - destruct (negb (String.eqb input "")).
    + apply local_inv in Hstep
        as [(Hb & _) | (_ & x & y & b & win & draw & _ & Hst & ->)].
      * by rewrite Hb.
      * rewrite board_after_local_move. by eapply store_square.
    + by simplify_eq/=.
  - apply network_inv in Hstep
      as [(Hb & _) | [(_ & _ & Hb & _)
                     | (_ & _ & b & win & draw & Hst & ->)]].
    + by rewrite Hb.
    + by rewrite Hb.
    + rewrite board_after_network_move. by eapply store_square.
  - by simplify_eq/=.
Qed.

Lemma main_start_well_formed (isServer : bool) :
  ∃ gs, main_start isServer = Some gs ∧ well_formed gs.
Proof.
  destruct square_examples as (Hsq & _).
  destruct isServer; eexists; (split; [reflexivity | exact Hsq]).
Qed.

Lemma reachable_well_formed (ok : Event → Prop) (gs : GameState) :
  reachable ok gs → well_formed gs.
Proof.
  induction 1 as [isServer gs Hstart | gs ev gs' _ IH _ Hstep].
  - destruct (main_start_well_formed isServer) as (gs0 & Hgs0 & Hwf).
    congruence.
  - by eapply main_step_well_formed.
Qed.


End Handlers.

(** ** The claims on concrete games *)

Lemma move_input_digits (a b : string) (x y : Z) :
  HasPrefix (a +:+ "," +:+ b) "/c " = false →
  Split (a +:+ "," +:+ b) "," = [a; b] →
  GoStd.Atoi (GoStd.TrimSpace a) = Some x →
  GoStd.Atoi (GoStd.TrimSpace b) = Some y →
  move_input GoStd.TrimSpace GoStd.Atoi (a +:+ "," +:+ b) x y.
Proof. intros Hp Hs Hx Hy. split; [done |]. by exists a, b. Qed.

Lemma full_board_facts :
  store Examples.cornerBoard 0 0 1 = Some (replicate 15 (replicate 15 1))
  ∧ five_in_a_row (replicate 15 (replicate 15 1)) 1
  ∧ board_full (replicate 15 (replicate 15 1)).
Proof.
  split_and!.
  - vm_compute. reflexivity.
  - exists 0, 0, (0, 1). split; [repeat constructor |]. intros k Hk.
    assert (k = 0 ∨ k = 1 ∨ k = 2 ∨ k = 3 ∨ k = 4) as Hcases by lia.
    destruct Hcases as [-> | [-> | [-> | [-> | ->]]]]; reflexivity.
  - destruct (checkDrawLogic_spec (replicate 15 (replicate 15 1)))
      as (d & Hd & Hiff).
    apply Hiff. vm_compute in Hd. congruence.
Qed.

Lemma invalid_move_changes_nothing_witness :
  let occupied := Examples.playing Examples.lineBoard 2 1 in
  let mine := Examples.playing Examples.lineBoard 1 1 in
  bad_target Examples.lineBoard 7 0 ∧ bad_target Examples.lineBoard 15 3
  ∧ placePieceInternal occupied 7 0 2 = Some (false, occupied)
  ∧ (∃ gs', handleNetworkMessage occupied (Examples.move 2 7 0) = Some gs'
            ∧ same_game occupied gs')
  ∧ (∃ gs', handleNetworkMessage occupied (Examples.move 2 15 3) = Some gs'
            ∧ same_game occupied gs')
  ∧ (∃ gs', handleUserInput GoStd.TrimSpace GoStd.Atoi mine "7,0" = Some gs'
            ∧ same_game mine gs').
Proof.
  intros occupied mine.
  assert (bad_target Examples.lineBoard 7 0) as Hbad.
  { right. exists 1. split; [reflexivity | unfold Empty; lia]. }
  assert (bad_target Examples.lineBoard 15 3) as Hout.
  { left. unfold BoardSize. lia. }
  split; [exact Hbad |]. split; [exact Hout |].
  destruct (invalid_move_changes_nothing GoStd.TrimSpace GoStd.Atoi
              occupied 7 0 Hbad) as (Hplace & Hnet & _).
  destruct (invalid_move_changes_nothing GoStd.TrimSpace GoStd.Atoi
              occupied 15 3 Hout) as (_ & Hnet' & _).
  destruct (invalid_move_changes_nothing GoStd.TrimSpace GoStd.Atoi
              mine 7 0 Hbad) as (_ & _ & Hlocal).
  split; [apply Hplace |].
  split; [apply Hnet; reflexivity |].
  split; [apply Hnet'; reflexivity |].
  apply Hlocal. apply (move_input_digits "7" "0"); reflexivity.
Defined.

Lemma win_checked_before_draw_witness :
  (∃ gs', handleUserInput GoStd.TrimSpace GoStd.Atoi
            (Examples.playing Examples.cornerBoard 1 1) "0,0" = Some gs'
          ∧ winner gs' = 1 ∧ gameOver gs' = true ∧ winner gs' ≠ 3)
  ∧ (∃ gs', handleNetworkMessage
              (Examples.playing Examples.cornerBoard 1 2)
              (Examples.move 1 0 0) = Some gs'
            ∧ winner gs' = 1 ∧ gameOver gs' = true ∧ winner gs' ≠ 3)
  ∧ checkDrawLogic (replicate 15 (replicate 15 1)) = Some true.
Proof.
  destruct square_examples as (_ & _ & Hsq).
  destruct full_board_facts as (Hst & Hfive & Hfull).
  assert (free_target Examples.cornerBoard 0 0) as Hfree.
  { unfold free_target, BoardSize. split_and!; (lia || reflexivity). }
  destruct (win_checked_before_draw GoStd.TrimSpace GoStd.Atoi
              (Examples.playing Examples.cornerBoard 1 1) 0 0 1
              (replicate 15 (replicate 15 1)))
    as (Hdraw & Hlocal & _); try done; [by left |].
  destruct (win_checked_before_draw GoStd.TrimSpace GoStd.Atoi
              (Examples.playing Examples.cornerBoard 1 2) 0 0 1
              (replicate 15 (replicate 15 1)))
    as (_ & _ & Hnet); try done; [by left |].
  split; [| split; [| exact Hdraw]].
  - apply Hlocal; [reflexivity | |].
    + unfold my_turn. split_and!; (reflexivity || (simpl; lia)).
    + apply (move_input_digits "0" "0"); reflexivity.
  - apply Hnet; try reflexivity.
    unfold in_turn. split_and!; (reflexivity || (simpl; lia)).
Defined.

Lemma turn_passes_to_other_player_witness :
  (∃ gs', handleUserInput GoStd.TrimSpace GoStd.Atoi
            (Examples.playing Examples.emptyBoard 1 1) "7,7" = Some gs'
          ∧ gameOver gs' = false ∧ currentPlayer gs' = 2)
  ∧ (∃ gs', handleNetworkMessage
              (Examples.playing Examples.emptyBoard 1 2)
              (Examples.move 1 7 7) = Some gs'
            ∧ gameOver gs' = false ∧ currentPlayer gs' = 2).
Proof.
  destruct square_examples as (Hsq & _ & _).
  assert (free_target Examples.emptyBoard 7 7) as Hfree.
  { unfold free_target, BoardSize. split_and!; (lia || reflexivity). }
  destruct (turn_passes_to_other_player GoStd.TrimSpace GoStd.Atoi
              (Examples.playing Examples.emptyBoard 1 1) 7 7 Hsq Hfree)
    as (Hlocal & _).
  destruct (turn_passes_to_other_player GoStd.TrimSpace GoStd.Atoi
              (Examples.playing Examples.emptyBoard 1 2) 7 7 Hsq Hfree)
    as (_ & Hnet).
  split.
  - destruct (Hlocal "7,7") as (gs' & Hrun & Hnext).
    + unfold my_turn. split_and!; (reflexivity || (simpl; lia)).
    + apply (move_input_digits "7" "7"); reflexivity.
    + exists gs'. split; [exact Hrun |].
      assert (gameOver gs' = false) as Hon.
      { vm_compute in Hrun. injection Hrun as <-. reflexivity. }
      split; [exact Hon |].
      destruct (Hnext Hon) as (_ & Hother). apply Hother. by left.
  - destruct (Hnet (Examples.move 1 7 7)) as (gs' & Hrun & Hnext);
      try reflexivity.
    + unfold in_turn. split_and!; (reflexivity || (simpl; lia)).
    + exists gs'. split; [exact Hrun |].
      assert (gameOver gs' = false) as Hon.
      { vm_compute in Hrun. injection Hrun as <-. reflexivity. }
      split; [exact Hon |]. apply (Hnext Hon).
Defined.

(** Claim C9 fails as stated: on the connecting side, assigned player 2
    and waiting for player 1, the line ["/c hi"] is answered with "not your
    turn"; nothing enters the chat log and nothing is sent. *)
Lemma chat_dropped_off_turn :
  ∃ gs gs',
    (main_start false
       ≫= λ s, main_run GoStd.TrimSpace GoStd.Atoi s [Network assignMsg])
    = Some gs
    ∧ handleUserInput GoStd.TrimSpace GoStd.Atoi gs ("/c " +:+ "hi")
      = Some gs'
    ∧ chatHistory gs' = chatHistory gs ∧ sent gs' = sent gs
    ∧ ¬ chat_posted gs "hi" gs'.
Proof.
  eexists. eexists. split; [vm_compute; reflexivity |].
  split; [vm_compute; reflexivity |].
  split; [reflexivity |]. split; [reflexivity |].
  intros (_ & Hlast & _). vm_compute in Hlast. discriminate.
Qed.

Lemma chat_posted_on_my_turn_witness :
  let mine := Examples.playing Examples.emptyBoard 1 1 in
  let theirs := Examples.playing Examples.emptyBoard 2 1 in
  (∃ gs', handleUserInput GoStd.TrimSpace GoStd.Atoi mine ("/c " +:+ "hi")
          = Some gs'
          ∧ same_game mine gs'
          ∧ chatHistory gs' = ["[You (Player 1)]: hi"]
          ∧ sent gs' = [(Spawned, chatMessage 1 "hi")])
  ∧ (∃ gs', handleUserInput GoStd.TrimSpace GoStd.Atoi theirs
              ("/c " +:+ "hi") = Some gs'
            ∧ same_game theirs gs'
            ∧ chatHistory gs' = [] ∧ sent gs' = []).
Proof.
  intros mine theirs. split.
  - destruct (chat_posted_on_my_turn GoStd.TrimSpace GoStd.Atoi mine "hi")
      as (gs' & Hrun & Hsame & Hposted & _); [discriminate |].
    exists gs'. split; [exact Hrun |]. split; [exact Hsame |].
    destruct Hposted as (Hlog & _ & Hsent).
    { unfold my_turn. split_and!; (reflexivity || (simpl; lia)). }
    split; [rewrite Hlog; reflexivity | exact Hsent].
  - destruct (chat_posted_on_my_turn GoStd.TrimSpace GoStd.Atoi theirs "hi")
      as (gs' & Hrun & Hsame & _ & Hignored); [discriminate |].
    exists gs'. split; [exact Hrun |]. split; [exact Hsame |].
    destruct Hignored as (Hlog & Hsent & _).
    { intros (_ & _ & Hcur). simpl in Hcur. lia. }
    split; [exact Hlog | exact Hsent].
Defined.

(** Claim C6 fails as stated: on the listening side, a [state] message
    with turn 0 and winner 0 followed by a [move] message of sender 0 to
    [(0, 0)] ends the game (five empty cells in a row "win" for 0) with
    [gameOver = true] and [winner = 0]. *)
Lemma game_over_without_winner :
  ∃ gs,
    (main_start true
       ≫= λ s, main_run GoStd.TrimSpace GoStd.Atoi s
                 [Network (Examples.state 0 0); Network (Examples.move 0 0 0)])
    = Some gs
    ∧ reachable GoStd.TrimSpace GoStd.Atoi (λ _, True) gs
    ∧ gameOver gs = true ∧ winner gs = 0
    ∧ ¬ over_iff_winner gs.
Proof.
  eexists. split; [vm_compute; reflexivity |]. split.
  - eapply (main_run_reachable _ _ _
              [Network (Examples.state 0 0); Network (Examples.move 0 0 0)]).
    + by eapply (reachable_start _ _ _ true).
    + by repeat constructor.
    + vm_compute. reflexivity.
  - split; [reflexivity |]. split; [reflexivity |].
    intros [Hover _]. by apply Hover.
Qed.

Lemma game_over_iff_winner_witness :
  ∃ gs,
    (main_start true
       ≫= λ s, main_run GoStd.TrimSpace GoStd.Atoi s
                 [Input "7,0"; Network (Examples.move 2 0 0);
                  Input "7,1"; Network (Examples.move 2 0 1);
                  Input "7,2"; Network (Examples.move 2 0 2);
                  Input "7,3"; Network (Examples.move 2 0 3);
                  Input "7,4"])
    = Some gs
    ∧ reachable GoStd.TrimSpace GoStd.Atoi named_sender gs
    ∧ gameOver gs = true ∧ winner gs = 1
    ∧ over_iff_winner gs.
Proof.
  eexists. split; [vm_compute; reflexivity |].
  match goal with
  | |- ?R ∧ _ => assert R as Hreach
  end.
  { eapply (main_run_reachable _ _ _
              [Input "7,0"; Network (Examples.move 2 0 0);
               Input "7,1"; Network (Examples.move 2 0 1);
               Input "7,2"; Network (Examples.move 2 0 2);
               Input "7,3"; Network (Examples.move 2 0 3);
               Input "7,4"]).
    - by eapply (reachable_start _ _ _ true).
    - repeat constructor; intros _; simpl; lia.
    - vm_compute. reflexivity. }
  split; [exact Hreach |]. split; [reflexivity |]. split; [reflexivity |].
  exact (game_over_iff_winner GoStd.TrimSpace GoStd.Atoi _ Hreach).
Defined.

(** Claim C7 fails as stated: the listening side has moved to [(7, 7)] and
    places player 2's move to [(8, 8)]; the same message delivered again
    finds the turn back with player 1 and is dropped by the turn check.  It
    never reaches [placePieceInternal]: no error reply goes out. *)
Lemma replay_dropped_by_turn_check :
  ∃ gs gs',
    (main_start true
       ≫= λ s, main_run GoStd.TrimSpace GoStd.Atoi s [Input "7,7"])
    = Some gs
    ∧ in_turn gs (Examples.move 2 8 8)
    ∧ free_target (board gs) 8 8
    ∧ handleNetworkMessage gs (Examples.move 2 8 8) = Some gs'
    ∧ cell (board gs') 8 8 = Some 2
    ∧ handleNetworkMessage gs' (Examples.move 2 8 8) = Some gs'
    ∧ ¬ ∃ gs'', rejected_as_invalid gs' (Examples.move 2 8 8) gs''.
Proof.
  eexists. eexists. split; [vm_compute; reflexivity |].
  split. { unfold in_turn. split_and!; (reflexivity || (simpl; lia)). }
  split. { unfold free_target, BoardSize. split_and!; (lia || reflexivity). }
  split; [vm_compute; reflexivity |].
  split; [reflexivity |].
  split; [vm_compute; reflexivity |].
  intros (gs'' & Hrun & Hsent & _).
  vm_compute in Hrun. injection Hrun as <-.
  vm_compute in Hsent. discriminate.
Qed.

Lemma replayed_move_changes_no_cell_witness :
  ∃ gs',
    handleNetworkMessage (Examples.playing Examples.emptyBoard 2 1)
      (Examples.move 2 8 8) = Some gs'
    ∧ cell (board gs') 8 8 = Some 2 ∧ gameOver gs' = false
    ∧ handleNetworkMessage gs' (Examples.move 2 8 8) = Some gs'
    ∧ placePieceInternal gs' 8 8 2 = Some (false, gs')
    ∧ ∀ gs2, later GoStd.TrimSpace GoStd.Atoi gs' gs2 →
        gameOver gs2 = false →
        ∃ gs3, handleNetworkMessage gs2 (Examples.move 2 8 8) = Some gs3
               ∧ board gs3 = board gs2
               ∧ (gs3 = gs2
                  ∨ rejected_as_invalid gs2 (Examples.move 2 8 8) gs3).
Proof.
  destruct square_examples as (Hsq & _ & _).
  destruct (handleNetworkMessage (Examples.playing Examples.emptyBoard 2 1)
              (Examples.move 2 8 8)) as [gs'|] eqn:Hrun;
    [| vm_compute in Hrun; discriminate].
  exists gs'. split; [reflexivity |].
  split. { vm_compute in Hrun. injection Hrun as <-. reflexivity. }
  assert (gameOver gs' = false) as Hon.
  { vm_compute in Hrun. injection Hrun as <-. reflexivity. }
  split; [exact Hon |].
  destruct (replayed_move_changes_no_cell GoStd.TrimSpace GoStd.Atoi
              (Examples.playing Examples.emptyBoard 2 1)
              (Examples.move 2 8 8) gs') as (Hagain & Hlater).
  - exact Hsq.
  - unfold in_turn. split_and!; (reflexivity || (simpl; lia)).
  - unfold free_target, BoardSize. simpl. split_and!; (lia || reflexivity).
  - exact Hrun.
  - split; [exact (Hagain Hon) |]. apply Hlater. simpl. lia.
Defined.

(** * Beyond the claims *)

(** ** Every outcome of the two handlers *)

Lemma placePiece_refused (gs : GameState) (x y player : Z)
    (gs' : GameState) :
  placePieceInternal gs x y player = Some (false, gs') →
  gs' = gs ∧ bad_target (board gs) x y.
Proof.
  unfold placePieceInternal, bad_target, BoardSize, Empty.
  destruct (Z.ltb_spec x 0), (Z.geb_spec x 15), (Z.ltb_spec y 0),
    (Z.geb_spec y 15); simpl;
    try (intros [= <-]; split; [done | left; lia]).
  destruct (cell (board gs) x y) as [v|] eqn:Hv; simpl; [| done].
  destruct (Z.eqb_spec v 0) as [-> | Hne]; simpl.
  - destruct (store (board gs) x y player); simpl; done.
  - intros [= <-]. split; [done |]. right. by exists v.
Qed.

Lemma network_outcomes (gs : GameState) (msg : Message) (gs' : GameState) :
  handleNetworkMessage gs msg = Some gs' → network_outcome gs msg gs'.
Proof.
  unfold handleNetworkMessage, handleNetworkMessage_locked. intros H.
  destruct (gameOver gs) eqn:Hover.
  { by destruct (String.eqb (Type_ msg) MsgTypeChat). }
  destruct (String.eqb (Type_ msg) MsgTypeMove) eqn:Hmove.
  { apply String.eqb_eq in Hmove.
    destruct (negb (Player msg =? playerID gs)
              && (currentPlayer gs =? Player msg)) eqn:Hguard.
    2: { destruct (Player msg =? playerID gs); simplify_eq/=; constructor. }
    apply andb_true_iff in Hguard as [Hne Hcur].
    apply negb_true_iff, Z.eqb_neq in Hne. apply Z.eqb_eq in Hcur.
    assert (in_turn gs msg) as Hturn by done.
    destruct (placePieceInternal gs (X msg) (Y msg) (Player msg))
      as [[[] gs1]|] eqn:Hplace; simpl in H; [| | done].
    - apply placePiece_inv in Hplace
        as [[? _] | (_ & Hfree & b & Hb & ->)]; [done |].
      cbn [board set_board] in H.
      destruct (checkWinLogic b (Player msg)) as [win|] eqn:Hwin;
        simpl in H; [| done].
      destruct win.
      { simplify_eq/=. by apply (net_placed gs msg b true false). }
      destruct (checkDrawLogic b) as [draw|] eqn:Hdraw; simpl in H; [| done].
      assert (gs' = SetNeedsRedraw
                      (settle (set_board gs b) (Player msg) (playerID gs)
                         false draw)) as ->
        by (destruct draw; by simplify_eq/=).
      by apply net_placed.
    - apply placePiece_refused in Hplace as [-> Hbad].
      simplify_eq/=. by apply net_invalid. }
  destruct (String.eqb (Type_ msg) MsgTypeChat) eqn:Hchat.
  { apply String.eqb_eq in Hchat.
    destruct (Z.eqb_spec (Player msg) (playerID gs)); simplify_eq/=;
      [constructor | by apply net_chat]. }
  destruct (String.eqb (Type_ msg) MsgTypeState) eqn:Hstate.
  { apply String.eqb_eq in Hstate. simplify_eq/=. by apply net_state. }
  destruct (String.eqb (Type_ msg) MsgTypeAssign) eqn:Hassign.
  { apply String.eqb_eq in Hassign.
    destruct (Z.eqb_spec (playerID gs) 0) as [Hid |];
      [| simplify_eq/=; constructor].
    cbn [playerID set_playerID] in H.
    assert (gs' = SetNeedsRedraw
                    (set_currentPlayer (set_playerID gs (Player msg))
                       Player1)) as ->
      by (destruct (Player msg =? Player1); by simplify_eq/=).
    by apply net_assign. }
  destruct (String.eqb (Type_ msg) MsgTypeError) eqn:Herror.
  { apply String.eqb_eq in Herror. simplify_eq/=.
    apply net_note; [by left | done]. }
  destruct (String.eqb (Type_ msg) MsgTypeNotify) eqn:Hnotify.
  { apply String.eqb_eq in Hnotify. simplify_eq/=.
    apply net_note; [by right | done]. }
  simplify_eq/=. constructor.
Qed.

Section Outcomes.

Variable TrimSpace : string → string.
Variable Atoi : string → option Z.

Local Abbreviation handleUserInput := (handleUserInput TrimSpace Atoi).
Local Abbreviation move_input := (move_input TrimSpace Atoi).
Local Abbreviation local_outcome := (local_outcome TrimSpace Atoi).
Local Abbreviation main_step := (main_step TrimSpace Atoi).
Local Abbreviation reachable := (reachable TrimSpace Atoi).
Local Abbreviation later := (later TrimSpace Atoi).

Lemma local_outcomes (gs : GameState) (input : string) (gs' : GameState) :
  handleUserInput gs input = Some gs' → local_outcome gs input gs'.
Proof.
  intros H.
  destruct (my_turn_or_not gs) as [Hturn | Hnot].
  2: { rewrite (not_my_turn TrimSpace Atoi gs input Hnot) in H.
       simplify_eq/=. constructor. }
  destruct (my_turn_guards _ Hturn) as (Hid & Hover & Hcur).
  unfold handleUserInput, handleUserInput_command,
    localMove_locked in H.
  rewrite Hid, Hover, Hcur in H. cbn [negb andb] in H.
  destruct (HasPrefix input "/c ") eqn:Hpre.
  { destruct (String.eqb_spec (TrimPrefix input "/c ") "") as [Hno | Htext];
      simpl in H.
    - simplify_eq/=. by apply loc_no_text.
    - apply String.eqb_neq in Htext as Hneq. rewrite Hneq in H.
      simplify_eq/=. by apply loc_chat. }
  destruct (Split input ",") as [| part0 [| part1 [| ? ?]]] eqn:Hsplit;
    try (simplify_eq/=; constructor).
  destruct (Atoi (TrimSpace part0)) as [x|] eqn:Hx;
    [| simplify_eq/=; constructor].
  destruct (Atoi (TrimSpace part1)) as [y|] eqn:Hy;
    [| simplify_eq/=; constructor].
  assert (move_input input x y) as Hinput.
  { split; [done |]. by exists part0, part1. }
  destruct (placePieceInternal gs x y (playerID gs))
    as [[[] gs1]|] eqn:Hplace; simpl in H; [| | done].
  - apply placePiece_inv in Hplace
      as [[? _] | (_ & Hfree & b & Hb & ->)]; [done |].
    cbn [board set_board] in H.
    destruct (checkWinLogic b (playerID gs)) as [win|] eqn:Hwin;
      simpl in H; [| done].
    destruct (checkDrawLogic b) as [draw|] eqn:Hdraw; simpl in H; [| done].
    assert (gs' = after_local_move gs b x y win draw) as ->.
    { unfold after_local_move. by destruct win, draw; simplify_eq/=. }
    by eapply loc_placed.
  - apply placePiece_refused in Hplace as [-> _].
    simplify_eq/=. constructor.
Qed.

Lemma input_outcomes (gs : GameState) (input : string) (gs' : GameState) :
  main_step gs (Input input) = Some gs' → local_outcome gs input gs'.
Proof.
  simpl. destruct (negb (String.eqb input "")).
  - apply local_outcomes.
  - intros [= <-]. constructor.
Qed.

(** ** The board *)

Lemma filter_no_empty (l : list Z) :
  (∀ v, v ∈ l → v ≠ Empty) → filter (λ v, v = Empty) l = [].
Proof.
  induction l as [| w l IH]; intros Hall; [done |].
  rewrite filter_cons_False by (apply Hall; left).
  apply IH. intros v Hv. apply Hall. by right.
Qed.

Lemma count_empty_full (board : Board) :
  count_empty board = 0%nat ↔ board_full board.
Proof.
  unfold count_empty, board_full. rewrite length_zero_iff_nil. split.
  - intros Hnone i j Hc.
    destruct (cell_Some_inv _ _ _ _ Hc) as (r & Hr & _ & Hv).
    destruct (row_Some_inv _ _ _ Hr) as [_ Hin].
    apply (filter_nil_not_elem_of _ _ Empty Hnone); [done |].
    apply list_elem_of_In, in_concat. exists r.
    split; apply list_elem_of_In; [done |].
    by eapply list_elem_of_lookup_2.
  - intros Hfull. apply filter_no_empty. intros v Hv ->.
    apply list_elem_of_In, in_concat in Hv as (r & Hr & Hv).
    apply list_elem_of_In, list_elem_of_lookup in Hv as [j Hj].
    apply list_elem_of_In, list_elem_of_lookup in Hr as [i Hi].
    apply (Hfull (Z.of_nat i) (Z.of_nat j)). unfold cell, row.
    destruct (Z.ltb_spec (Z.of_nat i) 0); [lia |].
    rewrite !Nat2Z.id, Hi. simpl.
    by destruct (Z.ltb_spec (Z.of_nat j) 0); [lia |].
Qed.

Lemma count_empty_replicate (k m : nat) :
  count_empty (replicate k (replicate m Empty)) = (k * m)%nat.
Proof.
  unfold count_empty. induction k as [| k IH]; [done |].
  cbn [replicate concat]. rewrite filter_app, length_app, IH.
  cbn [Nat.mul]. f_equal.
  clear IH. induction m as [| m IH]; [done |].
  cbn [replicate]. rewrite filter_cons_True by done.
  cbn [length]. by rewrite IH.
Qed.

(** [NewBoard(size)] panics for a negative size and for one beyond the
    length [make] accepts.  A board it returns is [size] by [size] and has
    [Empty] cells only: [size * size] of them, no line of five for any
    player, and (unless [size] is 0) not a full board.  For [BoardSize],
    the one size [main] asks for, it returns. *)
Theorem NewBoard_makes_empty_square (size : Z) :
  (size < 0 ∨ maxAlloc < 24 * size → NewBoard size = None)
  ∧ (∀ b, NewBoard size = Some b →
          0 ≤ size
          ∧ square size b
          ∧ (∀ i j v, cell b i j = Some v → v = Empty)
          ∧ count_empty b = Z.to_nat (size * size)
          ∧ (∀ p, p ≠ Empty → ¬ five_in_a_row b p)
          ∧ (board_full b ↔ size = 0))
  ∧ is_Some (NewBoard BoardSize).
Proof.
  split; [| split; [| by eexists]].
  { unfold NewBoard, make_fits, maxAlloc. intros Hbad.
    destruct (Z.leb_spec 0 size); [| done].
    destruct (Z.leb_spec (size * 24) 281474976710656); [lia | done]. }
  intros b Hb. unfold NewBoard, make_fits in Hb.
  destruct (Z.leb_spec 0 size) as [Hpos |]; [| done].
  split; [done |].
  assert (b = replicate (Z.to_nat size) (replicate (Z.to_nat size) 0)) as ->.
  { destruct (_ && _) in Hb; [| done].
    destruct (_ || _) in Hb; by simplify_eq. }
  clear Hb.
  set (n := Z.to_nat size).
  assert (∀ i j v,
    cell (replicate n (replicate n 0)) i j = Some v → v = Empty) as Hcells.
  { intros i j v Hc.
    destruct (cell_Some_inv _ _ _ _ Hc) as (r & Hr & _ & Hv).
    unfold row in Hr. destruct (i <? 0); [done |].
    apply lookup_replicate in Hr as [-> _].
    by apply lookup_replicate in Hv as [-> _]. }
  pose proof (count_empty_replicate n n) as Hcount. unfold Empty in Hcount.
  split_and!.
  - split.
    + unfold len. rewrite length_replicate. lia.
    + apply Forall_replicate. unfold len. rewrite length_replicate. lia.
  - done.
  - rewrite Hcount. lia.
  - intros p Hp (i & j & d & _ & Hrun).
    specialize (Hrun 0). apply Hp, (Hcells _ _ _ (Hrun ltac:(lia))).
  - rewrite <- count_empty_full, Hcount. nia.
Qed.

(** [checkDrawLogic] returns on every board, square or ragged, and returns
    [true] exactly when no cell is [Empty] (so also on a board without
    cells). *)
Theorem checkDrawLogic_iff_no_empty_cell (board : Board) :
  ∃ d : bool,
    checkDrawLogic board = Some d
    ∧ (d = true ↔ board_full board)
    ∧ (d = true ↔ count_empty board = 0%nat).
Proof.
  destruct (checkDrawLogic_spec board) as (d & Hd & Hiff).
  exists d. split; [done |]. split; [done |]. by rewrite count_empty_full.
Qed.

Lemma filter_insert_stone (l : list Z) (i : nat) (v : Z) :
  l !! i = Some Empty → v ≠ Empty →
  S (length (filter (λ w, w = Empty) (<[i := v]> l)))
  = length (filter (λ w, w = Empty) l).
Proof.
  revert i. induction l as [| w l IH]; intros i Hi Hv; [by destruct i |].
  destruct i as [| i]; simpl in Hi.
  - injection Hi as ->. change (<[0%nat := v]> (Empty :: l)) with (v :: l).
    by rewrite filter_cons_False, filter_cons_True.
  - change (<[S i := v]> (w :: l)) with (w :: <[i := v]> l).
    rewrite !filter_cons. destruct (decide (w = Empty)); cbn [length];
      by rewrite <- (IH i).
Qed.

Lemma count_empty_store (board b : Board) (x y p : Z) :
  free_target board x y → store board x y p = Some b → p ≠ Empty →
  S (count_empty b) = count_empty board.
Proof.
  intros (_ & _ & Hfree) Hst Hp.
  destruct (store_inv _ _ _ _ _ Hst) as (r & Hr & _ & ->).
  destruct (cell_Some_inv _ _ _ _ Hfree) as (r' & Hr' & _ & Hv).
  assert (r' = r) as -> by congruence.
  unfold row in Hr. destruct (x <? 0); [done |].
  unfold count_empty. clear Hst Hr' Hfree.
  revert Hr. generalize (Z.to_nat x). revert board.
  intros rows. induction rows as [| r0 rows IH]; intros i Hr;
    [by destruct i |].
  destruct i as [| i]; simpl in Hr.
  - injection Hr as ->.
    change (<[0%nat := <[Z.to_nat y := p]> r]> (r :: rows))
      with (<[Z.to_nat y := p]> r :: rows).
    cbn [concat]. rewrite !filter_app, !length_app.
    by rewrite <- (filter_insert_stone r (Z.to_nat y) p).
  - change (<[S i := <[Z.to_nat y := p]> r]> (r0 :: rows))
      with (r0 :: <[i := <[Z.to_nat y := p]> r]> rows).
    cbn [concat]. rewrite !filter_app, !length_app, <- (IH i Hr). lia.
Qed.

(** [placePieceInternal] returns [true] exactly on a cell that is on the
    board and [Empty].  It then writes the player's number there and
    nothing else: every other cell, the shape of the board and the other
    fields are as before, and (for a player other than 0) the board has one
    [Empty] cell less. *)
Theorem placePieceInternal_writes_one_cell (gs : GameState) (x y player : Z) :
  ((∃ gs', placePieceInternal gs x y player = Some (true, gs'))
   ↔ free_target (board gs) x y)
  ∧ ∀ gs', placePieceInternal gs x y player = Some (true, gs') →
      cell (board gs') x y = Some player
      ∧ (∀ i j, ¬ (i = x ∧ j = y) →
           cell (board gs') i j = cell (board gs) i j)
      ∧ (∀ n, square n (board gs) → square n (board gs'))
      ∧ (player ≠ Empty →
         S (count_empty (board gs')) = count_empty (board gs))
      ∧ gs' = set_board gs (board gs').
Proof.
  split.
  - split.
    + intros (gs' & Hplace).
      by apply placePiece_inv in Hplace as [[? _] | (_ & Hfree & _)].
    + intros Hfree.
      destruct (placePiece_free gs x y player Hfree) as (b & _ & Hplace).
      by eexists.
  - intros gs' Hplace.
    apply placePiece_inv in Hplace
      as [[? _] | (_ & Hfree & b & Hb & ->)]; [done |].
    cbn [board set_board]. split_and!.
    + rewrite (cell_store _ _ _ _ _ _ _ Hb).
      by destruct (decide _) as [_ | []].
    + intros i j Hne. rewrite (cell_store _ _ _ _ _ _ _ Hb).
      by destruct (decide _).
    + intros n Hsq. by eapply store_square.
    + intros Hp. by eapply count_empty_store.
    + done.
Qed.

(** A stone of player [q] on a free cell neither makes nor breaks a line of
    another player [p]: [checkWinLogic] for [p] returns what it returned
    before.  (So only the mover needs checking after a move.) *)
Theorem checkWinLogic_unmoved_by_other_player (board b : Board)
    (x y q p : Z) :
  square BoardSize board → free_target board x y →
  store board x y q = Some b → p ≠ q → p ≠ Empty →
  checkWinLogic b p = checkWinLogic board p
  ∧ (five_in_a_row b p ↔ five_in_a_row board p).
Proof.
  intros Hsq (_ & _ & Hfree) Hst Hpq Hp.
  assert (∀ i j, cell b i j = Some p ↔ cell board i j = Some p) as Hcells.
  { intros i j. rewrite (cell_store _ _ _ _ _ _ _ Hst).
    destruct (decide (i = x ∧ j = y)) as [[-> ->] | _]; [| done].
    rewrite Hfree. split; intros [= ?]; congruence. }
  assert (five_in_a_row b p ↔ five_in_a_row board p) as Hfive.
  { unfold five_in_a_row, run_from.
    split; intros (i & j & d & Hd & Hrun); exists i, j, d;
      (split; [done |]); intros k Hk; apply Hcells, Hrun, Hk. }
  split; [| done].
  destruct (checkWinLogic_spec BoardSize b p) as (w & -> & Hw);
    [by eapply store_square | apply BoardSize_fits |].
  destruct (checkWinLogic_spec BoardSize board p) as (w' & -> & Hw');
    [done | apply BoardSize_fits |].
  f_equal. destruct w, w'; try done.
  - assert (false = true) by (by apply Hw', Hfive, Hw). done.
  - assert (false = true) by (by apply Hw, Hfive, Hw'). done.
Qed.

(** ** The chat log *)

Lemma AddChatMessage_drop (gs : GameState) (sender message : string) :
  let h := chatHistory gs ++ [chatLine sender message] in
  chatHistory (AddChatMessage gs sender message) = drop (length h - 20) h.
Proof.
  intros h. unfold AddChatMessage. cbn [chatHistory set_chatHistory].
  fold h. unfold len, maxChatHistory.
  destruct (Z.gtb_spec (Z.of_nat (length h)) 20) as [Hlong | Hshort].
  - f_equal. lia.
  - replace (length h - 20)%nat with 0%nat by lia. done.
Qed.

Lemma AddChatMessage_bounded (gs : GameState) (sender message : string) :
  (length (chatHistory (AddChatMessage gs sender message)) ≤ 20)%nat.
Proof. rewrite AddChatMessage_drop, length_drop, length_app. simpl. lia. Qed.

(** [AddChatMessage] puts the new line last and keeps the latest 20 lines,
    in their order; it touches no other field. *)
Theorem AddChatMessage_keeps_latest_lines (gs : GameState)
    (sender message : string) :
  let gs' := AddChatMessage gs sender message in
  let h := chatHistory gs ++ [chatLine sender message] in
  chatHistory gs' = drop (length h - 20) h
  ∧ last (chatHistory gs') = Some (chatLine sender message)
  ∧ length (chatHistory gs') = Nat.min (length h) 20
  ∧ gs' = set_chatHistory gs (chatHistory gs').
Proof.
  intros gs' h.
  split_and!; [apply AddChatMessage_drop | apply AddChatMessage_last | | done].
  subst gs'. rewrite AddChatMessage_drop, length_drop. fold h. lia.
Qed.

Lemma chatHistory_settle (gs : GameState) (mover next : Z)
    (win draw : bool) :
  chatHistory (settle gs mover next win draw) = chatHistory gs.
Proof. by destruct win, draw. Qed.

Lemma chatHistory_after_local_move (gs : GameState) (b : Board) (x y : Z)
    (win draw : bool) :
  chatHistory (after_local_move gs b x y win draw) = chatHistory gs.
Proof. by destruct win, draw. Qed.

Lemma step_chat_bounded (gs : GameState) (ev : Event) (gs' : GameState) :
  main_step gs ev = Some gs' →
  (length (chatHistory gs) ≤ 20)%nat → (length (chatHistory gs') ≤ 20)%nat.
Proof.
  intros Hstep Hlen. destruct ev as [input | msg |].
  - apply input_outcomes in Hstep.
    destruct Hstep; cbn [chatHistory SetNeedsRedraw set_needsRedraw];
      rewrite ?chatHistory_after_local_move;
      try done; apply AddChatMessage_bounded.
  - apply network_outcomes in Hstep.
    destruct Hstep; cbn [chatHistory SetNeedsRedraw set_needsRedraw
                          SendMessage set_sent];
      rewrite ?chatHistory_settle;
      try done; apply AddChatMessage_bounded.
  - by simplify_eq/=.
Qed.

(** However many chat lines were typed or received, the log of a running
    program never holds more than 20. *)
Theorem chat_log_never_exceeds_20 (ok : Event → Prop) (gs : GameState) :
  reachable ok gs → (length (chatHistory gs) ≤ 20)%nat.
Proof.
  induction 1 as [isServer gs Hstart | gs ev gs' _ IH _ Hstep].
  - destruct isServer; vm_compute in Hstart; injection Hstart as <-;
      simpl; lia.
  - by eapply step_chat_bounded.
Qed.

(** While the game is on, a chat message from the network changes no
    game field and sends nothing.  From another player it is appended to the
    log as ["[Player n]: text"], after the lines that were there (the latest
    20 are kept), and the screen is marked for redrawing; the echo of a
    local chat is dropped. *)
Theorem inbound_chat_is_logged (gs : GameState) (msg : Message) :
  Type_ msg = MsgTypeChat → gameOver gs = false →
  ∃ gs', handleNetworkMessage gs msg = Some gs'
         ∧ same_game gs gs' ∧ playerID gs' = playerID gs
         ∧ sent gs' = sent gs
         ∧ (Player msg ≠ playerID gs →
            chatHistory gs' = log_after (chatHistory gs) (inboundChatLine msg)
            ∧ needsRedraw gs' = true)
         ∧ (Player msg = playerID gs → gs' = gs).
Proof.
  intros Hty Hover. unfold handleNetworkMessage, handleNetworkMessage_locked.
  rewrite Hty, Hover. cbn [String.eqb MsgTypeChat MsgTypeMove].
  change (String.eqb "chat" "chat") with true.
  change (String.eqb "chat" "move") with false. cbn iota.
  destruct (Z.eqb_spec (Player msg) (playerID gs)) as [Heq | Hne];
    cbn [negb mbind option_bind mu_Lock mu_Unlock]; eexists;
    (split; [done |]); split_and!; try done.
  intros _. split; [| done].
  cbn [chatHistory SetNeedsRedraw set_needsRedraw].
  apply AddChatMessage_log_after.
Qed.

(** ** What an event may and may not change *)

Lemma shown_settle (gs : GameState) (mover next : Z) (win draw : bool) :
  playerID (settle gs mover next win draw) = playerID gs
  ∧ sent (settle gs mover next win draw) = sent gs
  ∧ needsRedraw (settle gs mover next win draw) = needsRedraw gs.
Proof. by destruct win, draw. Qed.

Lemma fields_after_local_move (gs : GameState) (b : Board) (x y : Z)
    (win draw : bool) :
  let gs' := after_local_move gs b x y win draw in
  playerID gs' = playerID gs ∧ needsRedraw gs' = true
  ∧ winner gs' = (if win then playerID gs else if draw then 3 else winner gs)
  ∧ gameOver gs' = (if win || draw then true else gameOver gs)
  ∧ currentPlayer gs'
    = (if win || draw then currentPlayer gs
       else GoInt.sub 3 (playerID gs))
  ∧ sent gs'
    = sent gs
      ++ (if win || draw
          then [(Spawned,
                 stateMessage (if win then playerID gs else 3))]
          else [])
      ++ [(Spawned, moveMessage (playerID gs) x y)].
Proof.
  unfold after_local_move. destruct win, draw; cbn; split_and!; try done;
    by rewrite <- app_assoc.
Qed.

(** Whenever an event changes something the screen shows (the board, the
    turn, the winner, the game-over flag, the player number or the chat
    log), it leaves the redraw flag set, so that the next
    [CheckAndResetRedraw] of the loop returns [true], keeping all that is
    shown and clearing the flag. *)
Theorem visible_change_requests_redraw (gs : GameState) (ev : Event)
    (gs' : GameState) :
  main_step gs ev = Some gs' → shown gs' ≠ shown gs →
  ∃ gs'', CheckAndResetRedraw gs' = (true, gs'')
          ∧ shown gs'' = shown gs' ∧ needsRedraw gs'' = false.
Proof.
  intros Hstep Hchange.
  assert (needsRedraw gs' = true) as Hflag.
  { destruct ev as [input | msg |].
    - apply input_outcomes in Hstep. destruct Hstep; try done.
      by destruct (fields_after_local_move gs b x y win draw) as (_ & ? & _).
    - apply network_outcomes in Hstep. destruct Hstep; done.
    - by simplify_eq/=. }
  unfold CheckAndResetRedraw. rewrite Hflag. by eexists.
Qed.

(** Once [gameOver] is set the game is frozen.  A line from the console
    is dropped, whatever it says: the screen is marked for redrawing and
    nothing else changes.  A tick changes nothing.  A message from the
    network, chat included, is not survived: [handleNetworkMessage]
    releases [gs.mu] twice and does not return. *)
Theorem finished_game_is_frozen (gs : GameState) (ev : Event) :
  gameOver gs = true →
  main_step gs ev
  = match ev with
    | Input _ => Some (SetNeedsRedraw gs)
    | Network _ => None
    | Tick => Some gs
    end.
Proof.
  intros Hover. destruct ev as [input | msg |]; simpl.
  - destruct (negb (String.eqb input "")); [| done].
    apply not_my_turn. intros (_ & Hon & _). congruence.
  - by apply network_fatal_when_over.
  - done.
Qed.

(** A line typed while the player is not assigned, the game is over or it
    is the opponent's turn is not looked at: whether move, chat or
    anything else, it only marks the screen for redrawing. *)
Theorem input_off_turn_is_ignored (gs : GameState) (input : string) :
  playerID gs = 0 ∨ gameOver gs = true ∨ currentPlayer gs ≠ playerID gs →
  handleUserInput gs input = Some (SetNeedsRedraw gs).
Proof.
  intros Hwhy. apply not_my_turn. intros (Hid & Hover & Hcur).
  destruct Hwhy as [? | [? | ?]]; congruence.
Qed.

Lemma store_Empty_same (board b : Board) (x y : Z) :
  free_target board x y → store board x y Empty = Some b → b = board.
Proof.
  intros (_ & _ & Hfree) Hst.
  destruct (store_inv _ _ _ _ _ Hst) as (r & Hr & _ & ->).
  destruct (cell_Some_inv _ _ _ _ Hfree) as (r' & Hr' & _ & Hv).
  assert (r' = r) as -> by congruence.
  unfold row in Hr. destruct (x <? 0); [done |].
  rewrite (list_insert_id r _ _ Hv). by apply list_insert_id.
Qed.

(** One event changes at most one cell of the board, and only a cell that
    was [Empty]: the board is as before, or a free cell received a stone
    (of a player other than 0) and the board has one [Empty] cell fewer. *)
Theorem event_places_at_most_one_stone (gs : GameState) (ev : Event)
    (gs' : GameState) :
  main_step gs ev = Some gs' →
  board gs' = board gs
  ∨ ∃ x y p, p ≠ Empty ∧ free_target (board gs) x y
             ∧ store (board gs) x y p = Some (board gs')
             ∧ S (count_empty (board gs')) = count_empty (board gs).
Proof.
  intros Hstep.
  assert (∀ x y p b,
    free_target (board gs) x y → store (board gs) x y p = Some b →
    b = board gs
    ∨ ∃ x y p, p ≠ Empty ∧ free_target (board gs) x y
               ∧ store (board gs) x y p = Some b
               ∧ S (count_empty b) = count_empty (board gs)) as Hstone.
  { intros x y p b Hfree Hst. destruct (decide (p = Empty)) as [-> | Hp].
    - left. by eapply store_Empty_same.
    - right. exists x, y, p. split_and!; try done.
      by eapply count_empty_store. }
  destruct ev as [input | msg |].
  - apply input_outcomes in Hstep. destruct Hstep; try by left.
    rewrite board_after_local_move. by eapply Hstone.
  - apply network_outcomes in Hstep. destruct Hstep; try by left.
    rewrite board_after_network_move. by eapply Hstone.
  - left. by simplify_eq/=.
Qed.

(** A cell that holds a stone holds it for the rest of the run: no event
    clears or overwrites an occupied cell. *)
Theorem occupied_cell_never_changes (gs gs2 : GameState) (i j v : Z) :
  later gs gs2 → cell (board gs) i j = Some v → v ≠ Empty →
  cell (board gs2) i j = Some v.
Proof.
  intros Hlater Hc Hv.
  induction Hlater as [| gs1 ev gs2 _ IH Hstep]; [done |].
  by eapply step_keeps_occupied.
Qed.

(** The player number is given once: when it is not 0, no event changes
    it (a further [assign] message is dropped). *)
Theorem playerID_assigned_once (gs gs2 : GameState) :
  later gs gs2 → playerID gs ≠ 0 → playerID gs2 = playerID gs.
Proof.
  induction 1 as [| gs1 ev gs2 _ IH Hstep]; intros Hid; [done |].
  rewrite <- (IH Hid).
  destruct ev as [input | msg |].
  - apply input_outcomes in Hstep. destruct Hstep; try done.
    by destruct (fields_after_local_move gs1 b x y win draw) as (? & _).
  - apply network_outcomes in Hstep. destruct Hstep; try done.
    + by destruct (shown_settle (set_board gs1 b) (Player msg)
                     (playerID gs1) win draw) as (? & _).
    + specialize (IH Hid). congruence.
  - by simplify_eq/=.
Qed.


(** ** What goes out, and how two processes stay in step *)

Ltac nothing_sent :=
  exists []; rewrite app_nil_r; split_and!; [done | constructor | simpl; lia].

(** All an event hands to [SendMessage] is: for an inbound move that could
    not be placed, the invalid-move reply; for local input, from an
    assigned player only, the move just placed on a free cell (with the
    local player number), before it the final state when that move ended
    the game (winner: the local player or 3), or a chat line with text.
    What was sent before stays in the log. *)
Theorem outbound_messages_are_sound (gs : GameState) (ev : Event)
    (gs' : GameState) :
  main_step gs ev = Some gs' →
  ∃ out, sent gs' = sent gs ++ out
         ∧ Forall (sound_outbound gs gs') out
         ∧ (length out ≤ 2)%nat.
Proof.
  intros Hstep. destruct ev as [input | msg |].
  - apply input_outcomes in Hstep.
    destruct Hstep as [| | (Hid & _) ? Htext
                      | x y b win draw (Hid & _) _ Hfree Hst _ _].
    + nothing_sent.
    + nothing_sent.
    + eexists [_]. split; [done |]. split; [| simpl; lia].
      constructor; [| constructor]. split; [done |].
      right; right. by eexists.
    + destruct (fields_after_local_move gs b x y win draw)
        as (_ & _ & Hw & Ho & _ & Hsent).
      eexists. split; [exact Hsent |].
      assert (sound_outbound gs (after_local_move gs b x y win draw)
                (Spawned, moveMessage (playerID gs) x y)) as Hmove.
      { split; [done |]. left. split_and!; [done | done |].
        rewrite board_after_local_move. cbn [X Y moveMessage].
        rewrite (cell_store _ _ _ _ _ _ _ Hst).
        by destruct (decide _) as [_ | []]. }
      destruct (win || draw) eqn:Hend.
      * split; [| simpl; lia].
        constructor; [| constructor; [done | constructor]].
        split; [done |]. right; left. rewrite Hw, Ho.
        destruct win; [by auto |]. destruct draw; [by auto | done].
      * split; [| simpl; lia]. constructor; [done | constructor].
  - apply network_outcomes in Hstep.
    destruct Hstep; try nothing_sent.
    + eexists [_]. split; [done |]. split; [| simpl; lia].
      constructor; [done | constructor].
    + exists []. rewrite app_nil_r. split_and!; [| constructor | simpl; lia].
      by destruct (shown_settle (set_board gs b) (Player msg) (playerID gs)
                     win draw) as (_ & ? & _).
  - simplify_eq/=. nothing_sent.
Qed.

Lemma sub_3_opponent (a b : GameState) :
  opponents a b → GoInt.sub 3 (playerID a) = playerID b.
Proof. unfold opponents. intros [[-> ->] | [-> ->]]; reflexivity. Qed.

Lemma network_state (gs : GameState) (msg : Message) :
  gameOver gs = false → Type_ msg = MsgTypeState →
  handleNetworkMessage gs msg
  = Some (SetNeedsRedraw
            (set_gameOver
               (set_winner (set_currentPlayer gs (Turn msg)) (Winner msg))
               (negb (Winner msg =? 0)))).
Proof.
  intros Hover Hty. unfold handleNetworkMessage, handleNetworkMessage_locked.
  rewrite Hover, Hty. by cbn.
Qed.

(** A local move and its delivery to the process in step with the mover:
    both place the same stone and settle it by the same two checks. *)
Lemma move_on_both_sides (a b : GameState) (input : string) (x y : Z) :
  in_sync a b → my_turn a → move_input input x y →
  free_target (board a) x y →
  ∃ bd win draw,
    store (board a) x y (playerID a) = Some bd
    ∧ square BoardSize bd
    ∧ handleUserInput a input = Some (after_local_move a bd x y win draw)
    ∧ handleNetworkMessage b (moveMessage (playerID a) x y)
      = Some (SetNeedsRedraw
                (settle (set_board b bd) (playerID a) (playerID b)
                   win draw)).
Proof.
  intros (Hwf & (Hboard & Hcur & Hwin & Hover) & Hopp & Hone)
    Hturn Hinput Hfree.
  destruct (placePiece_free a x y (playerID a) Hfree) as (bd & Hbd & _).
  destruct (local_move_placed TrimSpace Atoi a input x y bd)
    as (win & draw & Hw & Hd & _ & _ & Hlocal); try done.
  pose proof Hturn as (Hid & Hon & Hmine).
  assert (playerID a ≠ playerID b) as Hne.
  { destruct Hopp as [[-> ->] | [-> ->]]; done. }
  set (msg := moveMessage (playerID a) x y).
  assert (in_turn b msg) as Hturn_b.
  { unfold in_turn. cbn [msg Type_ Player moveMessage].
    split_and!; [done | congruence | done | congruence]. }
  destruct (network_move_placed b msg bd)
    as (win' & draw' & Hw' & Hd' & _ & _ & Hnet); try done.
  { unfold well_formed. by rewrite Hboard. }
  { cbn [msg X Y moveMessage]. by rewrite Hboard. }
  { cbn [msg X Y Player moveMessage]. by rewrite Hboard. }
  cbn [msg Player moveMessage] in Hw', Hnet.
  assert (win' = win) as -> by congruence.
  assert (draw' = draw) as -> by congruence.
  exists bd, win, draw. split_and!; try done. by eapply store_square.
Qed.

(** Synchronisation.  Two processes in step, one of them on its turn: the
    local move to a free cell is applied there and its move message goes
    out last; the other process accepts that message, places the same
    stone, and the two are in step again (same board, turn, winner and
    game-over flag), whether or not the move ended the game. *)
Theorem move_keeps_peers_in_sync (a b : GameState) (input : string)
    (x y : Z) :
  in_sync a b → my_turn a → move_input input x y →
  free_target (board a) x y →
  ∃ a' b',
    handleUserInput a input = Some a'
    ∧ last (sent a') = Some (Spawned, moveMessage (playerID a) x y)
    ∧ handleNetworkMessage b (moveMessage (playerID a) x y) = Some b'
    ∧ cell (board b') x y = Some (playerID a)
    ∧ in_sync a' b'.
Proof.
  intros Hsync Hturn Hinput Hfree.
  destruct (move_on_both_sides a b input x y)
    as (bd & win & draw & Hbd & Hsq & -> & ->); try done.
  destruct Hsync as (Hwf & (Hboard & Hcur & Hwin & Hover) & Hopp & Hone).
  destruct (fields_after_local_move a bd x y win draw)
    as (Hid' & _ & Hwin' & Hover' & Hcur' & Hsent').
  cbn zeta in *.
  eexists _, _. split; [done |]. split.
  { rewrite Hsent', app_assoc. apply last_snoc. }
  split; [done |].
  split.
  { rewrite board_after_network_move, (cell_store _ _ _ _ _ _ _ Hbd).
    by destruct (decide _) as [_ | []]. }
  pose proof (sub_3_opponent a b Hopp) as Hsub.
  unfold in_sync, same_game. split_and!.
  - unfold well_formed. by rewrite board_after_local_move.
  - by rewrite board_after_network_move, board_after_local_move.
  - rewrite Hcur'. by destruct win, draw; cbn; rewrite ?Hcur, ?Hsub.
  - rewrite Hwin'. by destruct win, draw; cbn; rewrite ?Hwin.
  - rewrite Hover'. by destruct win, draw; cbn; rewrite ?Hover.
  - unfold opponents. rewrite Hid'.
    destruct (shown_settle (set_board b bd) (playerID a) (playerID b)
                win draw) as (Hidb & _).
    cbn [playerID SetNeedsRedraw set_needsRedraw]. rewrite Hidb. exact Hopp.
  - rewrite Hcur'. destruct (win || draw); [done |]. rewrite Hsub.
    destruct Hopp as [[_ ->] | [_ ->]]; [by right | by left].
Qed.

(** The end of a game reaches the other side in two messages, spawned
    as [state] then [move] and not ordered on the wire.  Whichever the
    other process handles first ends the game there: the move, by which it
    finds the same result itself and is in step again, or the [state]
    message, which sets the same winner while the last stone never reaches
    that board.  Either way the second message meets a finished game, and
    [handleNetworkMessage] does not return from it. *)
Theorem final_messages_in_either_order (a b : GameState) (input : string)
    (x y : Z) (a' : GameState) :
  in_sync a b → my_turn a → move_input input x y →
  free_target (board a) x y →
  handleUserInput a input = Some a' → gameOver a' = true →
  let mv := moveMessage (playerID a) x y in
  let st := stateMessage (winner a') in
  sent a' = sent a ++ [(Spawned, st); (Spawned, mv)]
  ∧ (∃ b1, handleNetworkMessage b mv = Some b1
           ∧ same_game a' b1
           ∧ handleNetworkMessage b1 st = None)
  ∧ (∃ b1, handleNetworkMessage b st = Some b1
           ∧ winner b1 = winner a' ∧ gameOver b1 = true
           ∧ board b1 = board b
           ∧ cell (board b1) x y = Some Empty
           ∧ handleNetworkMessage b1 mv = None).
Proof.
  intros Hsync Hturn Hinput Hfree Hlocal Hended mv st.
  destruct (move_on_both_sides a b input x y)
    as (bd & win & draw & Hbd & Hsq & Hlocal' & Hnet); try done.
  rewrite Hlocal' in Hlocal. injection Hlocal as <-.
  destruct Hsync as (Hwf & (Hboard & Hcur & Hwin & Hover) & Hopp & Hone).
  pose proof Hturn as (Hid & Hon & Hmine).
  destruct (fields_after_local_move a bd x y win draw)
    as (_ & _ & Hwin' & Hover' & Hcur' & Hsent').
  cbn zeta in *.
  assert (win || draw = true) as Hend.
  { rewrite Hover' in Hended. destruct (win || draw); congruence. }
  rewrite Hend in *.
  assert (winner (after_local_move a bd x y win draw)
          = (if win then playerID a else 3)) as Hw.
  { rewrite Hwin'. destruct win; [done |]. by destruct draw. }
  assert (winner (after_local_move a bd x y win draw) ≠ 0) as Hw0.
  { rewrite Hw. by destruct win. }
  split_and!.
  - subst st mv. by rewrite Hsent', Hw.
  - eexists. split; [exact Hnet |]. split.
    + unfold same_game. rewrite board_after_local_move.
      rewrite Hwin', Hover', Hcur'.
      by destruct win, draw; cbn; rewrite ?Hcur.
    + apply network_fatal_when_over. by destruct win, draw.
  - rewrite (network_state b st); [| congruence | done].
    eexists. split; [done |]. cbn [st stateMessage Winner Turn].
    apply Z.eqb_neq in Hw0. rewrite Hw0.
    split; [done |]. split; [done |]. split; [done |].
    split. { cbn. rewrite Hboard. by destruct Hfree as (_ & _ & ?). }
    by apply network_fatal_when_over.
Qed.

(** Turn authority.  Of two processes in step with the game on, one is on
    its turn: [handleUserInput] places its move to a free cell.  The other
    is not, and there [handleUserInput] drops every line, the same move
    included. *)
Theorem one_side_has_the_turn (a b : GameState) (input : string) (x y : Z) :
  in_sync a b → gameOver a = false → move_input input x y →
  free_target (board a) x y →
  ∃ mover waiting,
    ((mover = a ∧ waiting = b) ∨ (mover = b ∧ waiting = a))
    ∧ my_turn mover ∧ ¬ my_turn waiting
    ∧ (∃ g', handleUserInput mover input = Some g'
             ∧ cell (board g') x y = Some (playerID mover))
    ∧ (∀ line, handleUserInput waiting line = Some (SetNeedsRedraw waiting)).
Proof.
  intros (Hwf & (Hboard & Hcur & _ & Hover) & Hopp & Hone) Hon Hinput Hfree.
  assert (well_formed b) as Hwfb by (unfold well_formed; by rewrite Hboard).
  assert (free_target (board b) x y) as Hfreeb by (by rewrite Hboard).
  assert (∀ g, well_formed g → free_target (board g) x y → my_turn g →
    ∃ g', handleUserInput g input = Some g'
          ∧ cell (board g') x y = Some (playerID g)) as Hplaces.
  { intros g Hg Hfg Htg.
    destruct (placePiece_free g x y (playerID g) Hfg) as (bd & Hbd & _).
    destruct (local_move_placed TrimSpace Atoi g input x y bd)
      as (win & draw & _ & _ & _ & _ & ->); try done.
    eexists. split; [done |].
    rewrite board_after_local_move, (cell_store _ _ _ _ _ _ _ Hbd).
    by destruct (decide _) as [_ | []]. }
  assert (my_turn a ∧ ¬ my_turn b ∨ my_turn b ∧ ¬ my_turn a)
    as [[Hta Htb] | [Htb Hta]].
  { unfold my_turn. rewrite Hover, Hcur, Hon.
    destruct Hopp as [[-> ->] | [-> ->]], Hone as [-> | ->];
      unfold Player1, Player2; [left | right | right | left];
      (split; [done | intros (_ & _ & ?); done]). }
  - exists a, b. split; [by left |]. split_and!; try done.
    + by apply Hplaces.
    + intros line. by apply not_my_turn.
  - exists b, a. split; [by right |]. split_and!; try done.
    + by apply Hplaces.
    + intros line. by apply not_my_turn.
Qed.

(** ** How a placed move is settled *)

Lemma settle_table (gs : GameState) (b : Board) (mover next : Z)
    (win draw : bool) (gs' : GameState) :
  (win = true ↔ five_in_a_row b mover) → (draw = true ↔ board_full b) →
  winner gs' = winner (settle gs mover next win draw) →
  gameOver gs' = gameOver (settle gs mover next win draw) →
  (five_in_a_row b mover → gameOver gs' = true ∧ winner gs' = mover)
  ∧ (¬ five_in_a_row b mover → board_full b →
     gameOver gs' = true ∧ winner gs' = 3)
  ∧ (¬ five_in_a_row b mover → ¬ board_full b →
     gameOver gs' = gameOver gs ∧ winner gs' = winner gs).
Proof.
  intros Hw Hd -> ->. split_and!.
  - intros Hfive. apply Hw in Hfive as ->. done.
  - intros Hno Hfull. apply Hd in Hfull as ->.
    destruct win; [by destruct Hno; apply Hw | done].
  - intros Hno Hnot.
    destruct win; [by destruct Hno; apply Hw |].
    destruct draw; [by destruct Hnot; apply Hd | done].
Qed.

(** A move to a free cell, made locally on the local player's turn or
    received from the player whose turn it is, puts the mover's stone there
    and is settled on the new board: five in a row for the mover ends the
    game with the mover as winner; otherwise a board without an [Empty]
    cell ends it with winner 3, the draw; otherwise the game goes on with
    the winner field as it was. *)
Theorem placed_move_is_settled (gs : GameState) (x y : Z) :
  well_formed gs → free_target (board gs) x y →
  (∀ input, my_turn gs → move_input input x y →
     ∃ gs', handleUserInput gs input = Some gs'
            ∧ cell (board gs') x y = Some (playerID gs)
            ∧ (five_in_a_row (board gs') (playerID gs) →
               gameOver gs' = true ∧ winner gs' = playerID gs)
            ∧ (¬ five_in_a_row (board gs') (playerID gs) →
               board_full (board gs') →
               gameOver gs' = true ∧ winner gs' = 3)
            ∧ (¬ five_in_a_row (board gs') (playerID gs) →
               ¬ board_full (board gs') →
               gameOver gs' = false ∧ winner gs' = winner gs))
  ∧ (∀ msg, in_turn gs msg → X msg = x → Y msg = y →
       ∃ gs', handleNetworkMessage gs msg = Some gs'
              ∧ cell (board gs') x y = Some (Player msg)
              ∧ (five_in_a_row (board gs') (Player msg) →
                 gameOver gs' = true ∧ winner gs' = Player msg)
              ∧ (¬ five_in_a_row (board gs') (Player msg) →
                 board_full (board gs') →
                 gameOver gs' = true ∧ winner gs' = 3)
              ∧ (¬ five_in_a_row (board gs') (Player msg) →
                 ¬ board_full (board gs') →
                 gameOver gs' = false ∧ winner gs' = winner gs)).
Proof.
  intros Hwf Hfree. split.
  - intros input Hturn Hinput.
    destruct (placePiece_free gs x y (playerID gs) Hfree) as (b & Hb & _).
    destruct (local_move_placed TrimSpace Atoi gs input x y b)
      as (win & draw & _ & _ & Hw & Hd & ->); try done.
    eexists. split; [done |]. rewrite board_after_local_move. split.
    { rewrite (cell_store _ _ _ _ _ _ _ Hb).
      by destruct (decide _) as [_ | []]. }
    destruct Hturn as (_ & Hon & _). rewrite <- Hon.
    apply (settle_table (set_board gs b) b (playerID gs)
             (GoInt.sub 3 (playerID gs)) win draw); try done;
      unfold after_local_move; by destruct win, draw.
  - intros msg Hturn <- <-.
    destruct (placePiece_free gs _ _ (Player msg) Hfree) as (b & Hb & _).
    destruct (network_move_placed gs msg b)
      as (win & draw & _ & _ & Hw & Hd & ->); try done.
    eexists. split; [done |]. rewrite board_after_network_move. split.
    { rewrite (cell_store _ _ _ _ _ _ _ Hb).
      by destruct (decide _) as [_ | []]. }
    destruct Hturn as (_ & Hon & _). rewrite <- Hon.
    by apply (settle_table (set_board gs b) b (Player msg)
                (playerID gs) win draw).
Qed.

(** A line that is neither a chat command nor two numbers separated by
    one comma changes nothing and sends nothing; like a move that cannot
    be placed, it only marks the screen for redrawing. *)
Theorem malformed_input_is_ignored (gs : GameState) (input : string) :
  HasPrefix input "/c " = false →
  (∀ x y, ¬ move_input input x y) →
  handleUserInput gs input = Some (SetNeedsRedraw gs).
Proof.
  intros Hpre Hnot.
  destruct (my_turn_or_not gs) as [Hturn | Hoff]; [| by apply not_my_turn].
  destruct (my_turn_guards _ Hturn) as (Hid & Hover & Hcur).
  unfold handleUserInput, handleUserInput_command.
  rewrite Hid, Hover, Hcur, Hpre. cbn [negb andb].
  destruct (Split input ",") as [| part0 [| part1 [| ? ?]]] eqn:Hsplit;
    try done.
  destruct (Atoi (TrimSpace part0)) as [x|] eqn:Hx; [| done].
  destruct (Atoi (TrimSpace part1)) as [y|] eqn:Hy; [| done].
  destruct (Hnot x y). split; [done |]. by exists part0, part1.
Qed.

End Outcomes.

(** ** The printed board *)

Lemma length_append (s t : string) :
  String.length (s +:+ t) = (String.length s + String.length t)%nat.
Proof. induction s as [| c s IH]; simpl; [done | by rewrite IH]. Qed.

Lemma append_inj_length (s1 s2 t1 t2 : string) :
  String.length s1 = String.length s2 →
  s1 +:+ t1 = s2 +:+ t2 → s1 = s2 ∧ t1 = t2.
Proof.
  revert s2. induction s1 as [| c s1 IH]; intros [| c2 s2] Hlen Heq;
    simplify_eq/=; [done |].
  destruct (IH s2) as [-> ->]; done.
Qed.

Lemma append_inv_head (s t1 t2 : string) : s +:+ t1 = s +:+ t2 → t1 = t2.
Proof. induction s as [| c s IH]; simpl; [done |]. intros [=]. auto. Qed.

Lemma print_from_is_Some (body : Z → option string) (n : nat) : ∀ i,
  is_Some (print_from i n body)
  ↔ ∀ k, i ≤ k < i + Z.of_nat n → is_Some (body k).
Proof.
  induction n as [| n IH]; intros i; simpl.
  - split; [intros _ k ?; lia | by eexists].
  - split.
    + intros [t Ht] k Hk.
      destruct (body i) as [s|] eqn:Hs; simpl in Ht; [| done].
      destruct (print_from (i + 1) n body) as [rest|] eqn:Hrest;
        simpl in Ht; [| done].
      destruct (decide (k = i)) as [-> | Hne]; [by rewrite Hs |].
      apply (proj1 (IH (i + 1))); [by rewrite Hrest | lia].
    + intros Hall. destruct (Hall i) as [s ->]; [lia |]. simpl.
      destruct (proj2 (IH (i + 1))) as [rest ->]; [| by eexists].
      intros k Hk. apply Hall. lia.
Qed.

Lemma print_from_same_length (body1 body2 : Z → option string) (n : nat) :
  ∀ i t1 t2,
  (∀ k s1 s2, i ≤ k < i + Z.of_nat n →
     body1 k = Some s1 → body2 k = Some s2 →
     String.length s1 = String.length s2) →
  print_from i n body1 = Some t1 → print_from i n body2 = Some t2 →
  String.length t1 = String.length t2.
Proof.
  induction n as [| n IH]; intros i t1 t2 Hlen H1 H2; simpl in *.
  - by simplify_eq.
  - destruct (body1 i) as [s1|] eqn:Hs1; simpl in H1; [| done].
    destruct (body2 i) as [s2|] eqn:Hs2; simpl in H2; [| done].
    destruct (print_from (i + 1) n body1) as [r1|] eqn:Hr1;
      simpl in H1; [| done].
    destruct (print_from (i + 1) n body2) as [r2|] eqn:Hr2;
      simpl in H2; [| done].
    simplify_eq. rewrite !length_append.
    rewrite (Hlen i s1 s2) by (done || lia).
    rewrite (IH (i + 1) r1 r2); [done | | done | done].
    intros k ? ? Hk. apply Hlen. lia.
Qed.

Lemma print_from_inj (body1 body2 : Z → option string) (n : nat) :
  ∀ i t,
  (∀ k s1 s2, i ≤ k < i + Z.of_nat n →
     body1 k = Some s1 → body2 k = Some s2 →
     String.length s1 = String.length s2) →
  print_from i n body1 = Some t → print_from i n body2 = Some t →
  ∀ k, i ≤ k < i + Z.of_nat n → body1 k = body2 k.
Proof.
  induction n as [| n IH]; intros i t Hlen H1 H2 k Hk; simpl in *; [lia |].
  destruct (body1 i) as [s1|] eqn:Hs1; simpl in H1; [| done].
  destruct (body2 i) as [s2|] eqn:Hs2; simpl in H2; [| done].
  destruct (print_from (i + 1) n body1) as [r1|] eqn:Hr1;
    simpl in H1; [| done].
  destruct (print_from (i + 1) n body2) as [r2|] eqn:Hr2;
    simpl in H2; [| done].
  simplify_eq.
  destruct (append_inj_length s2 s1 r2 r1) as [-> ->];
    [symmetry; apply (Hlen i); (done || lia) | done |].
  destruct (decide (k = i)) as [-> | Hne]; [congruence |].
  apply (IH (i + 1) r1); [| done | done | lia].
  intros k' ? ? Hk'. apply Hlen. lia.
Qed.

Lemma printCell_inj (v w : Z) :
  marked v → marked w → printCell v = printCell w → v = w.
Proof.
  intros [-> | [-> | ->]] [-> | [-> | ->]]; vm_compute; intros; congruence.
Qed.

Lemma printCell_length (v : Z) :
  marked v → String.length (printCell v) = 3%nat.
Proof. intros [-> | [-> | ->]]; reflexivity. Qed.

Lemma square_ext (n : Z) (b1 b2 : Board) :
  square n b1 → square n b2 →
  (∀ i j, 0 ≤ i < n → 0 ≤ j < n → cell b1 i j = cell b2 i j) →
  b1 = b2.
Proof.
  intros [Hlen1 Hrows1] [Hlen2 Hrows2] Hcells. unfold len in *.
  apply list_eq_same_length with (length b1); [lia | lia |].
  intros i r1 r2 Hi Hr1 Hr2.
  rewrite Forall_forall in Hrows1, Hrows2.
  pose proof (Hrows1 r1 (list_elem_of_lookup_2 _ _ _ Hr1)) as Hl1.
  pose proof (Hrows2 r2 (list_elem_of_lookup_2 _ _ _ Hr2)) as Hl2.
  apply list_eq_same_length with (length r1); [unfold len in *; lia | lia |].
  intros j v1 v2 Hj Hv1 Hv2.
  specialize (Hcells (Z.of_nat i) (Z.of_nat j)).
  unfold cell, row in Hcells.
  destruct (Z.ltb_spec (Z.of_nat i) 0); [lia |].
  destruct (Z.ltb_spec (Z.of_nat j) 0); [lia |].
  rewrite !Nat2Z.id, Hr1, Hr2 in Hcells. simpl in Hcells.
  rewrite Hv1, Hv2 in Hcells. injection Hcells; [done | lia | lia].
Qed.

Lemma DisplayBoard_is_Some (gs : GameState) :
  (∀ i j, 0 ≤ i < BoardSize → 0 ≤ j < BoardSize →
          is_Some (cell (board gs) i j)) →
  is_Some (DisplayBoard gs).
Proof.
  intros Hall. unfold DisplayBoard, print_range.
  destruct (proj2 (print_from_is_Some
    (λ j, Some (fmt_2d j +:+ " ")) (Z.to_nat BoardSize) 0))
    as [columns ->]; [by eexists |].
  destruct (proj2 (print_from_is_Some
    (λ _, Some "--+") (Z.to_nat BoardSize) 0))
    as [rule ->]; [by eexists |].
  cbn [mbind option_bind].
  set (rows := print_from 0 (Z.to_nat BoardSize) _).
  assert (is_Some rows) as [t ->]; [| by eexists].
  apply print_from_is_Some. intros i Hi.
  destruct (proj2 (print_from_is_Some
    (λ j, cell (board gs) i j ≫= λ v, Some (printCell v))
    (Z.to_nat BoardSize) 0)) as [cells ->]; [| by eexists].
  intros j Hj.
  destruct (Hall i j) as [v ->]; [unfold BoardSize in *; lia .. |].
  by eexists.
Qed.

(** [DisplayBoard] reads the cells [(i, j)] with [i, j < 15], whatever the
    size of the board: it prints when all of them exist and panics as soon
    as one of them is missing. *)
Theorem DisplayBoard_reads_15_by_15 (gs : GameState) :
  is_Some (DisplayBoard gs)
  ↔ ∀ i j, 0 ≤ i < BoardSize → 0 ≤ j < BoardSize →
           is_Some (cell (board gs) i j).
Proof.
  split; [| apply DisplayBoard_is_Some].
  unfold DisplayBoard, print_range. intros Hsome i j Hi Hj.
  destruct (print_from 0 (Z.to_nat BoardSize)
              (λ j, Some (fmt_2d j +:+ " "))) as [columns|];
    [| by destruct Hsome].
  destruct (print_from 0 (Z.to_nat BoardSize) (λ _, Some "--+"))
    as [rule|]; [| by destruct Hsome].
  cbn [mbind option_bind] in Hsome.
  destruct (print_from 0 (Z.to_nat BoardSize) _) as [rows|] eqn:Hrows
    in Hsome; [| by destruct Hsome].
  destruct (proj1 (print_from_is_Some _ _ _) (mk_is_Some _ _ Hrows) i)
    as [r Hr]; [unfold BoardSize in *; lia |].
  cbn beta in Hr.
  destruct (print_from 0 (Z.to_nat BoardSize) _) as [cells|] eqn:Hcells
    in Hr; [| done].
  destruct (proj1 (print_from_is_Some _ _ _) (mk_is_Some _ _ Hcells) j)
    as [c Hc]; [unfold BoardSize in *; lia |].
  cbn beta in Hc. by destruct (cell (board gs) i j); [eexists |].
Qed.

(** The printed board tells the board: two 15 by 15 boards of cells 0, 1
    and 2 that print the same text are the same board. *)
Theorem DisplayBoard_tells_the_board (gs1 gs2 : GameState) :
  printable gs1 → printable gs2 →
  DisplayBoard gs1 = DisplayBoard gs2 → board gs1 = board gs2.
Proof.
  intros [Hwf1 Hvals1] [Hwf2 Hvals2] Hsame.
  pose (cellText := λ (gs : GameState) (i j : Z),
    cell (board gs) i j ≫= λ v, Some (printCell v)).
  pose (cellsText := λ (gs : GameState) (i : Z),
    print_from 0 (Z.to_nat BoardSize) (cellText gs i)).
  pose (rowText := λ (gs : GameState) (i : Z),
    cellsText gs i ≫= λ cells,
      Some (fmt_2d i +:+ "|" +:+ cells +:+ "|" +:+ pretty i +:+ newline)).
  assert (∀ i c1 c2, cellsText gs1 i = Some c1 → cellsText gs2 i = Some c2 →
                     String.length c1 = String.length c2) as Hcells_len.
  { intros i c1 c2 Hc1 Hc2.
    eapply print_from_same_length; [| exact Hc1 | exact Hc2].
    intros k s1 s2 _ Hs1 Hs2. unfold cellText in Hs1, Hs2.
    destruct (cell (board gs1) i k) as [v1|] eqn:Hv1; [| done].
    destruct (cell (board gs2) i k) as [v2|] eqn:Hv2; [| done].
    simplify_eq/=. rewrite !printCell_length; eauto. }
  assert (∀ i r1 r2, rowText gs1 i = Some r1 → rowText gs2 i = Some r2 →
                     String.length r1 = String.length r2) as Hrow_len.
  { intros i r1 r2 Hr1 Hr2. unfold rowText in Hr1, Hr2.
    destruct (cellsText gs1 i) as [c1|] eqn:Hc1; [| done].
    destruct (cellsText gs2 i) as [c2|] eqn:Hc2; [| done].
    simplify_eq/=. rewrite !length_append.
    by rewrite (Hcells_len i c1 c2). }
  assert (∀ gs, DisplayBoard gs =
    print_from 0 (Z.to_nat BoardSize) (λ j, Some (fmt_2d j +:+ " "))
    ≫= λ columns, print_from 0 (Z.to_nat BoardSize) (λ _, Some "--+")
    ≫= λ rule, print_from 0 (Z.to_nat BoardSize) (rowText gs)
    ≫= λ rows,
      Some (newline +:+ "   " +:+ columns +:+ newline +:+ "  +-" +:+ rule
            +:+ newline +:+ rows +:+ "  +-" +:+ rule +:+ newline
            +:+ "   " +:+ columns +:+ newline +:+ newline)) as Hshape
    by reflexivity.
  rewrite !Hshape in Hsame. clear Hshape.
  destruct (proj2 (print_from_is_Some
    (λ j, Some (fmt_2d j +:+ " ")) (Z.to_nat BoardSize) 0))
    as [columns Hcolumns]; [by eexists |].
  destruct (proj2 (print_from_is_Some
    (λ _, Some "--+") (Z.to_nat BoardSize) 0))
    as [rule Hrule]; [by eexists |].
  rewrite Hcolumns, Hrule in Hsame. cbn [mbind option_bind] in Hsame.
  assert (∀ gs, well_formed gs →
            is_Some (print_from 0 (Z.to_nat BoardSize) (rowText gs)))
    as Hrows.
  { intros gs Hwf. apply print_from_is_Some. intros i Hi.
    unfold rowText, cellsText.
    destruct (proj2 (print_from_is_Some (cellText gs i)
                       (Z.to_nat BoardSize) 0)) as [c ->]; [| by eexists].
    intros j Hj. unfold cellText.
    destruct (square_cell BoardSize (board gs) i j) as [v ->];
      [done | unfold BoardSize in *; lia | unfold BoardSize in *; lia |].
    by eexists. }
  destruct (Hrows gs1 Hwf1) as [rows1 Hrows1].
  destruct (Hrows gs2 Hwf2) as [rows2 Hrows2].
  rewrite Hrows1, Hrows2 in Hsame. cbn [mbind option_bind] in Hsame.
  injection Hsame as Hsame.
  repeat apply append_inv_head in Hsame.
  apply append_inj_length in Hsame as [<- _];
    [| eapply print_from_same_length; [| exact Hrows1 | exact Hrows2];
       intros k s1 s2 _; apply Hrow_len].
  apply square_ext with BoardSize; [done | done |].
  intros i j Hi Hj.
  assert (rowText gs1 i = rowText gs2 i) as Hrow.
  { eapply (print_from_inj (rowText gs1) (rowText gs2));
      [| exact Hrows1 | exact Hrows2 | unfold BoardSize in *; lia].
    intros k s1 s2 _. apply Hrow_len. }
  unfold rowText in Hrow.
  destruct (cellsText gs1 i) as [c1|] eqn:Hc1; last first.
  { destruct (proj1 (print_from_is_Some (rowText gs1)
                       (Z.to_nat BoardSize) 0)) with i as [? Hnone];
      [by eexists | unfold BoardSize in *; lia |].
    unfold rowText in Hnone. by rewrite Hc1 in Hnone. }
  destruct (cellsText gs2 i) as [c2|] eqn:Hc2; [| done].
  cbn [mbind option_bind] in Hrow. injection Hrow as Hrow.
  repeat apply append_inv_head in Hrow.
  apply append_inj_length in Hrow as [<- _]; [| by eapply Hcells_len].
  assert (cellText gs1 i j = cellText gs2 i j) as Hcell.
  { eapply (print_from_inj (cellText gs1 i) (cellText gs2 i));
      [| exact Hc1 | exact Hc2 | unfold BoardSize in *; lia].
    intros k s1 s2 _ Hs1 Hs2. unfold cellText in Hs1, Hs2.
    destruct (cell (board gs1) i k) as [v1|] eqn:Hv1; [| done].
    destruct (cell (board gs2) i k) as [v2|] eqn:Hv2; [| done].
    simplify_eq/=. rewrite !printCell_length; eauto. }
  unfold cellText in Hcell.
  destruct (square_cell BoardSize (board gs1) i j) as [v1 Hv1];
    [done | done | done |].
  destruct (square_cell BoardSize (board gs2) i j) as [v2 Hv2];
    [done | done | done |].
  rewrite Hv1, Hv2 in Hcell |- *. cbn [mbind option_bind] in Hcell.
  f_equal. apply printCell_inj; [eauto | eauto | congruence].
Qed.

Lemma marked_cells_check (b : Board) :
  forallb (forallb (λ v, (v =? Empty) || (v =? Player1) || (v =? Player2))) b
  = true →
  ∀ i j v, cell b i j = Some v → marked v.
Proof.
  intros Hall i j v Hc.
  apply cell_Some_inv in Hc as (r & Hr & _ & Hv).
  apply row_Some_inv in Hr as [_ Hin].
  rewrite forallb_forall in Hall.
  specialize (Hall r (proj1 (list_elem_of_In _ _) Hin)).
  rewrite forallb_forall in Hall.
  specialize (Hall v (proj1 (list_elem_of_In _ _)
                        (list_elem_of_lookup_2 _ _ _ Hv))).
  unfold marked. lia.
Qed.

Lemma cell_store_marked (board b : Board) (x y p : Z) :
  store board x y p = Some b → marked p →
  (∀ i j v, cell board i j = Some v → marked v) →
  ∀ i j v, cell b i j = Some v → marked v.
Proof.
  intros Hst Hp Hcells i j v. rewrite (cell_store _ _ _ _ _ i j Hst).
  destruct (decide (i = x ∧ j = y)); [by intros [= <-] | apply Hcells].
Qed.

Lemma main_step_keeps_marks (TrimSpace : string → string)
    (Atoi : string → option Z) (gs : GameState) (ev : Event)
    (gs' : GameState) :
  known_player ev → main_step TrimSpace Atoi gs ev = Some gs' →
  marked (playerID gs) ∧ (∀ i j v, cell (board gs) i j = Some v → marked v) →
  marked (playerID gs')
  ∧ (∀ i j v, cell (board gs') i j = Some v → marked v).
Proof.
  intros Hok Hstep [Hid Hcells]. destruct ev as [input | msg |].
  - apply input_outcomes in Hstep.
    destruct Hstep as [| | | x y b win draw _ _ _ Hst _ _]; try done.
    destruct (fields_after_local_move gs b x y win draw) as (-> & _).
    rewrite board_after_local_move. split; [done |].
    by eapply cell_store_marked.
  - apply network_outcomes in Hstep.
    destruct Hstep as [| | b win draw (Hty & _) _ Hst _ _ | | |
                       Hty _ _ |]; try done.
    + destruct (shown_settle (set_board gs b) (Player msg) (playerID gs)
                  win draw) as (Hsame & _).
      rewrite board_after_network_move. split.
      * change (playerID (settle (set_board gs b) (Player msg)
                            (playerID gs) win draw) = Empty
                ∨ playerID (settle (set_board gs b) (Player msg)
                              (playerID gs) win draw) = Player1
                ∨ playerID (settle (set_board gs b) (Player msg)
                              (playerID gs) win draw) = Player2).
        rewrite Hsame. exact Hid.
      * eapply cell_store_marked; [done | | done].
        right. apply Hok. by left.
    + split; [| done]. right. apply Hok. by right.
  - by simplify_eq/=.
Qed.

(** While the [move] and [assign] messages that arrive name player 1 or
    2, every state [main] reaches has a 15 by 15 board of cells 0, 1 and
    2 only, and [DisplayBoard] prints it. *)
Theorem reachable_board_is_printed (TrimSpace : string → string)
    (Atoi : string → option Z) (gs : GameState) :
  reachable TrimSpace Atoi known_player gs →
  printable gs ∧ is_Some (DisplayBoard gs).
Proof.
  intros Hreach.
  pose proof (reachable_well_formed _ _ _ _ Hreach) as Hwf.
  split; [split; [done |] |].
  - cut (marked (playerID gs)
         ∧ (∀ i j v, cell (board gs) i j = Some v → marked v)); [tauto |].
    clear Hwf.
    induction Hreach as [isServer gs Hstart | gs ev gs' _ IH Hok Hstep].
    + destruct isServer; vm_compute in Hstart; simplify_eq;
        (split; [unfold marked, Empty, Player1, Player2; simpl; lia
                | by apply marked_cells_check; vm_compute]).
    + by eapply main_step_keeps_marks.
  - apply DisplayBoard_is_Some. intros i j Hi Hj. by eapply square_cell.
Qed.

(** Without that, a stone [DisplayBoard] has no mark for can be placed:
    a [state] message gives the turn to player 7, whose move is then
    accepted, and the cell prints as nothing. *)
Example foreign_stone_is_not_printed :
  let gs := Examples.playing Examples.emptyBoard 1 1 in
  ∃ gs', main_run GoStd.TrimSpace GoStd.Atoi gs
           [Network (Examples.state 7 0); Network (Examples.move 7 0 0)]
         = Some gs'
         ∧ cell (board gs') 0 0 = Some 7 ∧ printCell 7 = "".
Proof. eexists. split_and!; vm_compute; reflexivity. Qed.

(** ** The further properties on concrete games *)

Lemma placePieceInternal_writes_one_cell_witness :
  let gs := Examples.playing Examples.lineBoard 2 1 in
  free_target (board gs) 0 0
  ∧ ∃ gs', placePieceInternal gs 0 0 2 = Some (true, gs')
           ∧ cell (board gs') 0 0 = Some 2
           ∧ cell (board gs') 7 0 = Some 1
           ∧ S (count_empty (board gs')) = count_empty (board gs).
Proof.
  intros gs.
  destruct (placePieceInternal_writes_one_cell gs 0 0 2) as (Hiff & Hframe).
  assert (free_target (board gs) 0 0) as Hfree.
  { unfold free_target, BoardSize. split_and!; (lia || reflexivity). }
  split; [exact Hfree |].
  destruct (proj2 Hiff Hfree) as (gs' & Hplace).
  exists gs'. split; [exact Hplace |].
  destruct (Hframe gs' Hplace) as (Hcell & Hother & _ & Hcount & _).
  split; [exact Hcell |]. split.
  - rewrite Hother by lia. reflexivity.
  - apply Hcount. unfold Empty. lia.
Defined.

Lemma checkWinLogic_unmoved_by_other_player_witness :
  ∃ b, store Examples.lineBoard 0 0 2 = Some b
       ∧ checkWinLogic b 1 = checkWinLogic Examples.lineBoard 1
       ∧ checkWinLogic b 1 = Some true.
Proof.
  destruct (store Examples.lineBoard 0 0 2) as [b|] eqn:Hst;
    [| vm_compute in Hst; discriminate].
  exists b. split; [reflexivity |].
  destruct square_examples as (_ & Hsq & _).
  destruct (checkWinLogic_unmoved_by_other_player Examples.lineBoard b
              0 0 2 1) as (Hsame & _).
  - exact Hsq.
  - unfold free_target, BoardSize. split_and!; (lia || reflexivity).
  - exact Hst.
  - lia.
  - unfold Empty. lia.
  - split; [exact Hsame |]. rewrite Hsame. vm_compute. reflexivity.
Defined.

Lemma start_reachable (ok : Event → Prop) :
  ∃ gs, main_start true = Some gs
        ∧ reachable GoStd.TrimSpace GoStd.Atoi ok gs.
Proof.
  destruct (main_start true) as [gs|] eqn:Hstart;
    [| vm_compute in Hstart; discriminate].
  exists gs. split; [reflexivity |]. by eapply reachable_start.
Qed.

Lemma chat_log_never_exceeds_20_witness :
  ∃ gs gs',
    main_start true = Some gs
    ∧ main_run GoStd.TrimSpace GoStd.Atoi gs
        (replicate 25 (Input "/c hi")) = Some gs'
    ∧ reachable GoStd.TrimSpace GoStd.Atoi (λ _, True) gs'
    ∧ (length (chatHistory gs') ≤ 20)%nat.
Proof.
  destruct (start_reachable (λ _, True)) as (gs & Hstart & Hreach).
  exists gs.
  destruct (main_run GoStd.TrimSpace GoStd.Atoi gs
              (replicate 25 (Input "/c hi"))) as [gs'|] eqn:Hrun.
  2: { vm_compute in Hstart. injection Hstart as <-.
       vm_compute in Hrun. discriminate. }
  exists gs'. split; [exact Hstart |]. split; [reflexivity |].
  assert (reachable GoStd.TrimSpace GoStd.Atoi (λ _, True) gs') as Hreach'.
  { eapply main_run_reachable; [exact Hreach | | exact Hrun].
    apply Forall_forall. done. }
  split; [exact Hreach' |].
  exact (chat_log_never_exceeds_20 GoStd.TrimSpace GoStd.Atoi _ _ Hreach').
Defined.

Lemma inbound_chat_is_logged_witness :
  let gs := Examples.playing Examples.emptyBoard 1 1 in
  let msg := mkMessage MsgTypeChat 2 0 0 "hello" 0 0 in
  ∃ gs', handleNetworkMessage gs msg = Some gs'
         ∧ same_game gs gs'
         ∧ chatHistory gs' = ["[Player 2]: hello"]
         ∧ needsRedraw gs' = true.
Proof.
  intros gs msg.
  destruct (inbound_chat_is_logged gs msg)
    as (gs' & Hrun & Hsame & _ & _ & Hlog & _); [reflexivity | reflexivity |].
  exists gs'. split; [exact Hrun |]. split; [exact Hsame |].
  destruct Hlog as [Hlog Hflag]; [simpl; lia |].
  split; [rewrite Hlog; reflexivity | exact Hflag].
Defined.

Lemma visible_change_requests_redraw_witness :
  let gs := Examples.playing Examples.emptyBoard 2 1 in
  ∃ gs' gs'',
    main_step GoStd.TrimSpace GoStd.Atoi gs (Network (Examples.move 2 8 8))
    = Some gs'
    ∧ shown gs' ≠ shown gs
    ∧ CheckAndResetRedraw gs' = (true, gs'')
    ∧ shown gs'' = shown gs' ∧ needsRedraw gs'' = false.
Proof.
  intros gs.
  destruct (main_step GoStd.TrimSpace GoStd.Atoi gs
              (Network (Examples.move 2 8 8))) as [gs'|] eqn:Hstep;
    [| vm_compute in Hstep; discriminate].
  assert (shown gs' ≠ shown gs) as Hchange.
  { pose proof Hstep as Hc. vm_compute in Hc. injection Hc as <-.
    vm_compute. discriminate. }
  destruct (visible_change_requests_redraw GoStd.TrimSpace GoStd.Atoi
              gs (Network (Examples.move 2 8 8)) gs' Hstep Hchange)
    as (gs'' & Hcheck).
  exists gs', gs''. split; [reflexivity |]. split; [exact Hchange |].
  exact Hcheck.
Defined.

Lemma finished_game_is_frozen_witness :
  let gs := set_gameOver
              (set_winner (Examples.playing Examples.lineBoard 2 1) 1) true in
  main_step GoStd.TrimSpace GoStd.Atoi gs (Input "8,8")
  = Some (SetNeedsRedraw gs)
  ∧ main_step GoStd.TrimSpace GoStd.Atoi gs (Network (Examples.move 2 8 8))
    = None
  ∧ main_step GoStd.TrimSpace GoStd.Atoi gs
      (Network (mkMessage MsgTypeChat 2 0 0 "hello" 0 0)) = None
  ∧ main_step GoStd.TrimSpace GoStd.Atoi gs Tick = Some gs.
Proof.
  intros gs.
  split_and!;
    exact (finished_game_is_frozen GoStd.TrimSpace GoStd.Atoi gs _ eq_refl).
Defined.

Lemma input_off_turn_is_ignored_witness :
  let gs := Examples.playing Examples.emptyBoard 1 2 in
  handleUserInput GoStd.TrimSpace GoStd.Atoi gs "7,7"
  = Some (SetNeedsRedraw gs).
Proof.
  intros gs.
  apply (input_off_turn_is_ignored GoStd.TrimSpace GoStd.Atoi gs "7,7").
  right; right. simpl. lia.
Defined.

Lemma event_places_at_most_one_stone_witness :
  let gs := Examples.playing Examples.emptyBoard 1 1 in
  ∃ gs', main_step GoStd.TrimSpace GoStd.Atoi gs (Input "7,7") = Some gs'
         ∧ (board gs' = board gs
            ∨ ∃ x y p, p ≠ Empty ∧ free_target (board gs) x y
                       ∧ store (board gs) x y p = Some (board gs')
                       ∧ S (count_empty (board gs'))
                         = count_empty (board gs)).
Proof.
  intros gs.
  destruct (main_step GoStd.TrimSpace GoStd.Atoi gs (Input "7,7"))
    as [gs'|] eqn:Hstep; [| vm_compute in Hstep; discriminate].
  exists gs'. split; [reflexivity |].
  exact (event_places_at_most_one_stone GoStd.TrimSpace GoStd.Atoi
           gs (Input "7,7") gs' Hstep).
Defined.

Lemma occupied_cell_never_changes_witness :
  let gs := Examples.playing Examples.lineBoard 2 1 in
  ∃ gs', main_step GoStd.TrimSpace GoStd.Atoi gs
           (Network (Examples.move 2 7 0)) = Some gs'
         ∧ later GoStd.TrimSpace GoStd.Atoi gs gs'
         ∧ cell (board gs') 7 0 = Some 1.
Proof.
  intros gs.
  destruct (main_step GoStd.TrimSpace GoStd.Atoi gs
              (Network (Examples.move 2 7 0))) as [gs'|] eqn:Hstep;
    [| vm_compute in Hstep; discriminate].
  assert (later GoStd.TrimSpace GoStd.Atoi gs gs') as Hlater.
  { eapply later_step; [apply later_now | exact Hstep]. }
  exists gs'. split; [reflexivity |]. split; [exact Hlater |].
  apply (occupied_cell_never_changes GoStd.TrimSpace GoStd.Atoi gs gs'
           7 0 1 Hlater); [reflexivity | unfold Empty; lia].
Defined.

Lemma playerID_assigned_once_witness :
  let gs := Examples.playing Examples.emptyBoard 1 2 in
  ∃ gs', main_step GoStd.TrimSpace GoStd.Atoi gs
           (Network (mkMessage MsgTypeAssign 1 0 0 "" 0 0)) = Some gs'
         ∧ later GoStd.TrimSpace GoStd.Atoi gs gs'
         ∧ playerID gs' = 2.
Proof.
  intros gs.
  destruct (main_step GoStd.TrimSpace GoStd.Atoi gs
              (Network (mkMessage MsgTypeAssign 1 0 0 "" 0 0)))
    as [gs'|] eqn:Hstep; [| vm_compute in Hstep; discriminate].
  assert (later GoStd.TrimSpace GoStd.Atoi gs gs') as Hlater.
  { eapply later_step; [apply later_now | exact Hstep]. }
  exists gs'. split; [reflexivity |]. split; [exact Hlater |].
  apply (playerID_assigned_once GoStd.TrimSpace GoStd.Atoi gs gs' Hlater).
  simpl. lia.
Defined.


Lemma outbound_messages_are_sound_witness :
  let gs := Examples.playing Examples.cornerBoard 1 1 in
  ∃ gs' out,
    main_step GoStd.TrimSpace GoStd.Atoi gs (Input "0,0") = Some gs'
    ∧ sent gs' = sent gs ++ out
    ∧ Forall (sound_outbound gs gs') out
    ∧ (length out ≤ 2)%nat.
Proof.
  intros gs.
  destruct (main_step GoStd.TrimSpace GoStd.Atoi gs (Input "0,0"))
    as [gs'|] eqn:Hstep; [| vm_compute in Hstep; discriminate].
  destruct (outbound_messages_are_sound GoStd.TrimSpace GoStd.Atoi
              gs (Input "0,0") gs' Hstep) as (out & Hout).
  exists gs', out. split; [reflexivity | exact Hout].
Defined.

Lemma in_sync_examples :
  in_sync (Examples.playing Examples.emptyBoard 1 1)
    (Examples.playing Examples.emptyBoard 1 2)
  ∧ in_sync (Examples.playing Examples.cornerBoard 1 1)
      (Examples.playing Examples.cornerBoard 1 2).
Proof.
  destruct square_examples as (Hsq & _ & Hsq').
  split; (split; [done |]); (split; [done |]);
    (split; [by left | by left]).
Qed.

Lemma my_turn_examples (b : Board) : my_turn (Examples.playing b 1 1).
Proof. unfold my_turn. split_and!; (reflexivity || (simpl; lia)). Qed.

Lemma move_keeps_peers_in_sync_witness :
  let a := Examples.playing Examples.emptyBoard 1 1 in
  let b := Examples.playing Examples.emptyBoard 1 2 in
  ∃ a' b',
    handleUserInput GoStd.TrimSpace GoStd.Atoi a "7,7" = Some a'
    ∧ last (sent a') = Some (Spawned, moveMessage 1 7 7)
    ∧ handleNetworkMessage b (moveMessage 1 7 7) = Some b'
    ∧ cell (board b') 7 7 = Some 1
    ∧ in_sync a' b'.
Proof.
  intros a b. destruct in_sync_examples as (Hsync & _).
  apply (move_keeps_peers_in_sync GoStd.TrimSpace GoStd.Atoi a b "7,7" 7 7).
  - exact Hsync.
  - apply my_turn_examples.
  - apply (move_input_digits "7" "7"); reflexivity.
  - unfold free_target, BoardSize. split_and!; (lia || reflexivity).
Defined.

Lemma one_side_has_the_turn_witness :
  let a := Examples.playing Examples.emptyBoard 1 1 in
  let b := Examples.playing Examples.emptyBoard 1 2 in
  (∃ a', handleUserInput GoStd.TrimSpace GoStd.Atoi a "7,7" = Some a'
         ∧ cell (board a') 7 7 = Some 1)
  ∧ handleUserInput GoStd.TrimSpace GoStd.Atoi b "7,7"
    = Some (SetNeedsRedraw b).
Proof.
  intros a b. destruct in_sync_examples as (Hsync & _).
  destruct (one_side_has_the_turn GoStd.TrimSpace GoStd.Atoi a b "7,7" 7 7)
    as (mover & waiting & Hwho & Hturn & Hnot & Hplaced & Hdropped).
  - exact Hsync.
  - reflexivity.
  - apply (move_input_digits "7" "7"); reflexivity.
  - unfold free_target, BoardSize. split_and!; (lia || reflexivity).
  - destruct Hwho as [[-> ->] | [-> ->]].
    + split; [exact Hplaced | apply Hdropped].
    + destruct Hnot. apply my_turn_examples.
Defined.

Lemma final_messages_in_either_order_witness :
  let a := Examples.playing Examples.cornerBoard 1 1 in
  let b := Examples.playing Examples.cornerBoard 1 2 in
  ∃ a',
    handleUserInput GoStd.TrimSpace GoStd.Atoi a "0,0" = Some a'
    ∧ gameOver a' = true ∧ winner a' = 1
    ∧ sent a'
      = sent a ++ [(Spawned, stateMessage (winner a'));
                   (Spawned, moveMessage 1 0 0)]
    ∧ (∃ b1, handleNetworkMessage b (moveMessage 1 0 0) = Some b1
             ∧ same_game a' b1
             ∧ handleNetworkMessage b1 (stateMessage (winner a')) = None)
    ∧ (∃ b1, handleNetworkMessage b (stateMessage (winner a')) = Some b1
             ∧ winner b1 = winner a' ∧ gameOver b1 = true
             ∧ board b1 = board b
             ∧ cell (board b1) 0 0 = Some Empty
             ∧ handleNetworkMessage b1 (moveMessage 1 0 0) = None).
Proof.
  intros a b. destruct in_sync_examples as (_ & Hsync).
  destruct (handleUserInput GoStd.TrimSpace GoStd.Atoi a "0,0")
    as [a'|] eqn:Hrun; [| vm_compute in Hrun; discriminate].
  assert (gameOver a' = true ∧ winner a' = 1) as [Hover Hwin].
  { pose proof Hrun as Hc. vm_compute in Hc. injection Hc as <-.
    split; reflexivity. }
  exists a'. split; [reflexivity |]. split; [exact Hover |].
  split; [exact Hwin |].
  apply (final_messages_in_either_order GoStd.TrimSpace GoStd.Atoi
           a b "0,0" 0 0 a').
  - exact Hsync.
  - apply my_turn_examples.
  - apply (move_input_digits "0" "0"); reflexivity.
  - unfold free_target, BoardSize. split_and!; (lia || reflexivity).
  - exact Hrun.
  - exact Hover.
Defined.

Lemma placed_move_is_settled_witness :
  (∃ gs', handleUserInput GoStd.TrimSpace GoStd.Atoi
            (Examples.playing Examples.emptyBoard 1 1) "7,7" = Some gs'
          ∧ cell (board gs') 7 7 = Some 1)
  ∧ (∃ gs', handleNetworkMessage
              (Examples.playing Examples.cornerBoard 1 2)
              (Examples.move 1 0 0) = Some gs'
            ∧ gameOver gs' = true ∧ winner gs' = 1).
Proof.
  destruct square_examples as (Hsq & _ & Hsq').
  split.
  - destruct (placed_move_is_settled GoStd.TrimSpace GoStd.Atoi
                (Examples.playing Examples.emptyBoard 1 1) 7 7)
      as (Hlocal & _).
    + exact Hsq.
    + unfold free_target, BoardSize. split_and!; (lia || reflexivity).
    + destruct (Hlocal "7,7") as (gs' & Hrun & Hcell & _).
      * apply my_turn_examples.
      * apply (move_input_digits "7" "7"); reflexivity.
      * exists gs'. split; [exact Hrun | exact Hcell].
  - destruct (placed_move_is_settled GoStd.TrimSpace GoStd.Atoi
                (Examples.playing Examples.cornerBoard 1 2) 0 0)
      as (_ & Hnet).
    + exact Hsq'.
    + unfold free_target, BoardSize. split_and!; (lia || reflexivity).
    + destruct (Hnet (Examples.move 1 0 0)) as (gs' & Hrun & _ & Hfive & _);
        try reflexivity.
      * unfold in_turn. split_and!; (reflexivity || (simpl; lia)).
      * exists gs'. split; [exact Hrun |]. apply Hfive.
        pose proof Hrun as Hc. vm_compute in Hc. injection Hc as <-.
        apply full_board_facts.
Defined.

Lemma malformed_input_is_ignored_witness :
  let gs := Examples.playing Examples.emptyBoard 1 1 in
  handleUserInput GoStd.TrimSpace GoStd.Atoi gs "7;7"
  = Some (SetNeedsRedraw gs).
Proof.
  intros gs.
  apply (malformed_input_is_ignored GoStd.TrimSpace GoStd.Atoi gs "7;7").
  - reflexivity.
  - intros x y (_ & part0 & part1 & Hsplit & _). discriminate.
Defined.


Lemma DisplayBoard_tells_the_board_witness :
  let gs1 := Examples.playing Examples.lineBoard 1 1 in
  let gs2 := SetNeedsRedraw (Examples.playing Examples.lineBoard 2 1) in
  printable gs1 ∧ printable gs2 ∧ DisplayBoard gs1 = DisplayBoard gs2
  ∧ board gs1 = board gs2.
Proof.
  intros gs1 gs2.
  destruct square_examples as (_ & Hsq & _).
  assert (printable gs1) as H1.
  { split; [exact Hsq |]. apply marked_cells_check. vm_compute. reflexivity. }
  assert (printable gs2) as H2.
  { split; [exact Hsq |]. apply marked_cells_check. vm_compute. reflexivity. }
  assert (DisplayBoard gs1 = DisplayBoard gs2) as Hsame
    by (vm_compute; reflexivity).
  split; [exact H1 |]. split; [exact H2 |]. split; [exact Hsame |].
  exact (DisplayBoard_tells_the_board gs1 gs2 H1 H2 Hsame).
Defined.

Lemma reachable_board_is_printed_witness :
  ∃ gs gs',
    main_start true = Some gs
    ∧ main_run GoStd.TrimSpace GoStd.Atoi gs
        [Input "7,7"; Network (Examples.move 2 7 8)] = Some gs'
    ∧ reachable GoStd.TrimSpace GoStd.Atoi known_player gs'
    ∧ printable gs' ∧ is_Some (DisplayBoard gs').
Proof.
  destruct (start_reachable known_player) as (gs & Hstart & Hreach).
  exists gs.
  destruct (main_run GoStd.TrimSpace GoStd.Atoi gs
              [Input "7,7"; Network (Examples.move 2 7 8)])
    as [gs'|] eqn:Hrun.
  2: { vm_compute in Hstart. injection Hstart as <-.
       vm_compute in Hrun. discriminate. }
  exists gs'. split; [exact Hstart |]. split; [reflexivity |].
  assert (reachable GoStd.TrimSpace GoStd.Atoi known_player gs') as Hreach'.
  { eapply main_run_reachable; [exact Hreach | | exact Hrun].
    constructor; [exact I |]. constructor; [| constructor].
    intros _. right. reflexivity. }
  split; [exact Hreach' |].
  exact (reachable_board_is_printed GoStd.TrimSpace GoStd.Atoi gs' Hreach').
Defined.
